(** * livehttpx: the probing engine of [core/checker.py]

    A shallow embedding of [SubdomainChecker] ([core/checker.py]) and of the
    data classes of [core/models.py], with the properties of the status
    filter, of the retry / scheme policy of [check_host] and of the result
    aggregation of [run_checks].

    Conventions.
    - Python [int] is [Z]; [str] is [string] (UTF-8 bytes, whose bytewise
      lexicographic order is the code point order Python compares by);
      [float] clock readings and sleep lengths are rationals [Q]
      ([0.5 * (attempt + 1)] is exact in both).
    - [Dict[int, int]] and [Dict[str, int]] are [gmap]s.
    - The network, the clock, the resolver and the random generator are an
      abstract [World] threaded through every call; every call that can
      raise returns [Raise e], and [try]/[except] is a combinator. *)

From Stdlib Require Import Ascii String ZArith QArith List Bool Lia Lqa Permutation Sorted.
From stdpp Require Import gmap strings sorting.
Import ListNotations.

Local Open Scope string_scope.
Local Open Scope list_scope.
Local Open Scope Z_scope.

(** ** Data model ([core/models.py]) *)

Record ScanResult := mkScanResult {
  url : string;
  host : string;
  status : Z;
  scheme : string;
  title : string;
  content_length : Z;
  server : string;
  ip_address : string;
  response_time : Q;
  technologies : list string;
  redirect_chain : list string;
  headers : gmap string string;
  cookies : gmap string string;
  has_form : bool;
  has_login : bool;
  is_wordpress : bool;
  cms : string;
  waf : string;
  cdn : string
}.

Record ScanConfig := mkScanConfig {
  timeout : Z;
  max_workers : Z;
  match_codes : list Z;
  verify_ssl : bool;
  rate_limit : option Z;
  retries : Z;
  follow_redirects : bool;
  tech_detection : bool;
  detect_waf : bool;
  detect_cms : bool;
  detect_cdn : bool;
  extract_headers : bool;
  extract_cookies : bool;
  find_forms : bool;
  find_logins : bool;
  random_user_agent : bool;
  custom_user_agent : option string;
  custom_headers : gmap string string;
  proxy : option string;
  exclude_codes : list Z;
  include_codes : list Z;
  only_https : bool;
  only_http : bool
}.

(** The defaults of the [ScanConfig] dataclass. *)
Definition default_config : ScanConfig := {|
  timeout := 5;
  max_workers := 50;
  match_codes := [200; 201; 202; 204; 301; 302; 307; 308; 401; 403];
  verify_ssl := true;
  rate_limit := None;
  retries := 1;
  follow_redirects := true;
  tech_detection := false;
  detect_waf := false;
  detect_cms := false;
  detect_cdn := false;
  extract_headers := false;
  extract_cookies := false;
  find_forms := false;
  find_logins := false;
  random_user_agent := true;
  custom_user_agent := None;
  custom_headers := ∅;
  proxy := None;
  exclude_codes := [];
  include_codes := [];
  only_https := false;
  only_http := false
|}.

Record ScanStats := mkScanStats {
  total_checked : Z;
  total_found : Z;
  start_time : Q;
  end_time : Q;
  status_distribution : gmap Z Z;
  tech_distribution : gmap string Z;
  cms_distribution : gmap string Z;
  waf_distribution : gmap string Z
}.

(** [ScanStats()] *)
Definition empty_stats : ScanStats := {|
  total_checked := 0;
  total_found := 0;
  start_time := 0%Q;
  end_time := 0%Q;
  status_distribution := ∅;
  tech_distribution := ∅;
  cms_distribution := ∅;
  waf_distribution := ∅
|}.

(** ** Python primitives *)

(** [x in xs] on a list of ints. *)
Definition py_in (x : Z) (xs : list Z) : bool := existsb (Z.eqb x) xs.

(** Truth value of a list: non-empty. *)
Definition truthy_list {A} (xs : list A) : bool :=
  match xs with [] => false | _ :: _ => true end.

(** Truth value of a string: non-empty. *)
Definition truthy_str (s : string) : bool :=
  match s with EmptyString => false | String _ _ => true end.

(** [range(n)] *)
Definition range (n : Z) : list Z := map Z.of_nat (seq 0 (Z.to_nat n)).

(** ** The status filter *)

(** [SubdomainChecker._should_include_status] *)
Definition _should_include_status (config : ScanConfig) (st : Z) : bool :=
  if truthy_list (exclude_codes config) && py_in st (exclude_codes config) then false
  else if truthy_list (include_codes config) && negb (py_in st (include_codes config)) then false
  else py_in st (match_codes config).

(** The filter as the specification words it, on membership propositions. *)
Definition shouldInclude (st : Z) (config : ScanConfig) : Prop :=
  ~ In st (exclude_codes config) /\
  (include_codes config = [] \/ In st (include_codes config)) /\
  In st (match_codes config).

(** ** Strings *)

Definition lower_ascii (c : ascii) : ascii :=
  let n := N_of_ascii c in
  if ((65 <=? n) && (n <=? 90))%N then ascii_of_N (n + 32) else c.

(** [str.lower()] on the ASCII range. *)
Fixpoint lower (s : string) : string :=
  match s with
  | EmptyString => EmptyString
  | String c s' => String (lower_ascii c) (lower s')
  end.

Fixpoint replace_from (old new : string) (skip : nat) (s : string) : string :=
  match s with
  | EmptyString => EmptyString
  | String c s' =>
      match skip with
      | S k => replace_from old new k s'
      | O =>
          if String.prefix old s
          then String.append new (replace_from old new (Nat.pred (String.length old)) s')
          else String c (replace_from old new O s')
      end
  end.

(** [s.replace(old, new)] for a non-empty [old]. *)
Definition replace (old new s : string) : string := replace_from old new O s.

Definition str_in (x : string) (xs : list string) : bool :=
  existsb (String.eqb x) xs.

(** ** Exceptions, requests, responses *)

(** The class of a raised exception: the classes of [requests.exceptions]
    that the handlers of [check_host] tell apart, and [Exception] for any
    other error. *)
Inductive exn : Type :=
| SSLError | Timeout | ConnectTimeout | ReadTimeout
| ProxyError | ConnectionError | RequestException | Exception.

(** [issubclass e c]: an exception of class [e] is caught by [except c]. *)
Definition issubclass (e c : exn) : bool :=
  match c with
  | Exception => true
  | RequestException => match e with Exception => false | _ => true end
  | ConnectionError =>
      match e with
      | ConnectionError | ProxyError | SSLError | ConnectTimeout => true
      | _ => false
      end
  | Timeout =>
      match e with Timeout | ConnectTimeout | ReadTimeout => true | _ => false end
  | SSLError => match e with SSLError => true | _ => false end
  | ConnectTimeout => match e with ConnectTimeout => true | _ => false end
  | ReadTimeout => match e with ReadTimeout => true | _ => false end
  | ProxyError => match e with ProxyError => true | _ => false end
  end.

Record Request := mkRequest {
  req_url : string;
  req_timeout : Z;
  req_headers : gmap string string;
  req_verify : bool;
  req_allow_redirects : bool
}.

Record Response := mkResponse {
  status_code : Z;
  resp_url : string;
  text : string;
  content : string;
  resp_headers : list (string * string);
  resp_cookies : list (string * string)
}.

(** [response.headers.get(key, default)]: the header names compare without
    case. *)
Fixpoint headers_get (key default : string) (hs : list (string * string)) : string :=
  match hs with
  | [] => default
  | (k, v) :: hs' =>
      if String.eqb (lower k) (lower key) then v else headers_get key default hs'
  end.

(** [d[k] = v] for each pair in turn. *)
Definition dict_of_items (items : list (string * string)) : gmap string string :=
  fold_left (fun d kv => <[fst kv := snd kv]> d) items ∅.

(** ** The world outside the checker *)

Record Platform := mkPlatform {
  World : Type;
  (** [requests.Session.get] *)
  net_get : Request -> World -> (exn + Response) * World;
  (** [time.time] *)
  clock : World -> Q * World;
  (** [time.sleep] *)
  pause : Q -> World -> World;
  (** [socket.gethostbyname]; [None] when it raises *)
  resolve : string -> World -> option string * World;
  (** the index [random.choice] picks in a sequence of the given length *)
  pick : nat -> World -> nat * World;
  (** the fingerprint functions of [core/utils.py] *)
  extract_title : string -> string;
  detect_technologies : string -> list (string * string) -> list string;
  utils_detect_cms : string -> list (string * string) -> string;
  utils_detect_waf : list (string * string) -> string;
  utils_detect_cdn : list (string * string) -> string;
  detect_forms : string -> bool;
  detect_login_forms : string -> bool
}.

(** Where in [check_host] a request is issued: the loop variables, and
    whether it is the request of the [try] body or the one of the
    [SSLError] handler. *)
Record call_site := mkSite {
  at_scheme : string;
  at_attempt : Z;
  in_handler : bool
}.

(** What a run does that can be observed from outside. *)
Inductive event : Type :=
| EvGate                                   (* [_rate_limit_wait] is called *)
| EvSleep (secs : Q)                       (* [time.sleep(secs)] *)
| EvGet (site : call_site) (req : Request) (out : exn + Response).

Inductive result (A : Type) : Type :=
| Ok (a : A)
| Raise (e : exn).
Arguments Ok {A} a.
Arguments Raise {A} e.

(** The mutable fields of a [SubdomainChecker]. *)
Record Checker := mkChecker {
  results : list ScanResult;
  stats : ScanStats;
  last_request_time : Q;
  user_agents : list string;
  current_user_agent : nat
}.

(** The pool of [get_random_user_agent]. *)
Definition user_agent_pool : list string := [
  "Mozilla/5.0 (Windows NT 10.0; Win64; x64) AppleWebKit/537.36 (KHTML, like Gecko) Chrome/120.0.0.0 Safari/537.36";
  "Mozilla/5.0 (Windows NT 10.0; Win64; x64; rv:109.0) Gecko/20100101 Firefox/121.0";
  "Mozilla/5.0 (Macintosh; Intel Mac OS X 10_15_7) AppleWebKit/537.36 (KHTML, like Gecko) Chrome/120.0.0.0 Safari/537.36";
  "Mozilla/5.0 (X11; Linux x86_64) AppleWebKit/537.36 (KHTML, like Gecko) Chrome/120.0.0.0 Safari/537.36";
  "Mozilla/5.0 (iPhone; CPU iPhone OS 17_2 like Mac OS X) AppleWebKit/605.1.15 (KHTML, like Gecko) Version/17.2 Mobile/15E148 Safari/604.1";
  "Mozilla/5.0 (iPad; CPU OS 17_2 like Mac OS X) AppleWebKit/605.1.15 (KHTML, like Gecko) Version/17.2 Mobile/15E148 Safari/604.1";
  "Mozilla/5.0 (Linux; Android 14; SM-S911B) AppleWebKit/537.36 (KHTML, like Gecko) Chrome/120.0.6099.210 Mobile Safari/537.36"
].

(** How the body of the [for attempt] loop ends: it runs off its end, it
    executes [continue], or it executes [return result]. *)
Inductive ctl : Type :=
| Fallthrough
| Continue
| Return (r : ScanResult).

(** [0.5 * (attempt + 1)] *)
Definition backoff (attempt : Z) : Q := ((1 # 2) * inject_Z (attempt + 1))%Q.

(** ** The checker ([core/checker.py]) *)

Section Engine.

Variable P : Platform.
Variable config : ScanConfig.

Definition St : Type := Checker * World P.

(** A computation reads and writes the checker and the world, returns a
    value or raises, and emits events. *)
Definition M (A : Type) : Type := St -> result A * St * list event.

Definition ret {A} (a : A) : M A := fun st => (Ok a, st, []).

Definition raise {A} (e : exn) : M A := fun st => (Raise e, st, []).

Definition bind {A B} (m : M A) (k : A -> M B) : M B := fun st =>
  match m st with
  | (Ok a, st1, tr1) =>
      match k a st1 with (r, st2, tr2) => (r, st2, tr1 ++ tr2) end
  | (Raise e, st1, tr1) => (Raise e, st1, tr1)
  end.

(** [try: body  except e: handler e] *)
Definition try_except {A} (body : M A) (handler : exn -> M A) : M A := fun st =>
  match body st with
  | (Ok a, st1, tr1) => (Ok a, st1, tr1)
  | (Raise e, st1, tr1) =>
      match handler e st1 with (r, st2, tr2) => (r, st2, tr1 ++ tr2) end
  end.

Notation "x <- m ;; k" := (bind m (fun x => k))
  (at level 20, m at level 99, k at level 200, only parsing).
Notation "m ;; k" := (bind m (fun _ => k))
  (at level 100, k at level 200, only parsing, right associativity).

Definition emit (e : event) : M unit := fun st => (Ok tt, st, [e]).

Definition get_self : M Checker := fun st => (Ok (fst st), st, []).

Definition put_self (c : Checker) : M unit := fun st => (Ok tt, (c, snd st), []).

Definition time_time : M Q := fun st =>
  match clock P (snd st) with (t, w) => (Ok t, (fst st, w), []) end.

Definition time_sleep (secs : Q) : M unit := fun st =>
  (Ok tt, (fst st, pause P secs (snd st)), [EvSleep secs]).

Definition session_get (site : call_site) (req : Request) : M Response := fun st =>
  match net_get P req (snd st) with
  | (inr response, w) => (Ok response, (fst st, w), [EvGet site req (inr response)])
  | (inl e, w) => (Raise e, (fst st, w), [EvGet site req (inl e)])
  end.

(** [utils.get_ip_address]: the lookup, with every exception turned into
    [None]. *)
Definition get_ip_address (hostname : string) : M (option string) := fun st =>
  match resolve P hostname (snd st) with (r, w) => (Ok r, (fst st, w), []) end.

(** [utils.get_random_user_agent] *)
Definition get_random_user_agent : M string := fun st =>
  match pick P (length user_agent_pool) (snd st) with
  | (i, w) =>
      (Ok (nth (i mod length user_agent_pool)%nat user_agent_pool ""), (fst st, w), [])
  end.

(** [SubdomainChecker.__init__]: [start_time] is the clock reading and the
    first of the three user agents is a random one. *)
Definition init (w : World P) : St :=
  match clock P w with
  | (t, w1) =>
      match pick P (length user_agent_pool) w1 with
      | (i, w2) =>
          ({| results := [];
              stats := {| total_checked := 0; total_found := 0;
                          start_time := t; end_time := 0%Q;
                          status_distribution := ∅; tech_distribution := ∅;
                          cms_distribution := ∅; waf_distribution := ∅ |};
              last_request_time := 0%Q;
              user_agents :=
                [nth (i mod length user_agent_pool)%nat user_agent_pool "";
                 "Mozilla/5.0 (Windows NT 10.0; Win64; x64) AppleWebKit/537.36";
                 "Mozilla/5.0 (Macintosh; Intel Mac OS X 10_15_7) AppleWebKit/537.36"];
              current_user_agent := O |}, w2)
      end
  end.

(** [SubdomainChecker._get_next_user_agent].  The subscript is in range in
    every checker [__init__] builds: the list has three entries and the index
    is reduced modulo its length ([user_agent_index_in_range] below), so the
    call does not raise. *)
Definition _get_next_user_agent : M string :=
  if match custom_user_agent config with Some ua => truthy_str ua | None => false end
  then ret (match custom_user_agent config with Some ua => ua | None => "" end)
  else if random_user_agent config then get_random_user_agent
  else
    self <- get_self ;;
    let agent := nth (current_user_agent self) (user_agents self) "" in
    put_self {| results := results self; stats := stats self;
                last_request_time := last_request_time self;
                user_agents := user_agents self;
                current_user_agent :=
                  ((current_user_agent self + 1) mod length (user_agents self))%nat |} ;;
    ret agent.

(** [SubdomainChecker._rate_limit_wait]; [not self.config.rate_limit] holds
    for [None] and for [0]. *)
Definition _rate_limit_wait : M unit :=
  emit EvGate ;;
  match rate_limit config with
  | None => ret tt
  | Some rate =>
      if (rate =? 0)%Z then ret tt
      else
        current_time <- time_time ;;
        self <- get_self ;;
        let time_since_last := (current_time - last_request_time self)%Q in
        let period := (1 / inject_Z rate)%Q in
        (if negb (Qle_bool period time_since_last)
         then time_sleep (period - time_since_last)%Q
         else ret tt) ;;
        now <- time_time ;;
        self <- get_self ;;
        put_self {| results := results self; stats := stats self;
                    last_request_time := now;
                    user_agents := user_agents self;
                    current_user_agent := current_user_agent self |}
  end.

(** [SubdomainChecker._extract_headers] *)
Definition _extract_headers (response : Response) : gmap string string :=
  if negb (extract_headers config) then ∅
  else
    dict_of_items
      (List.filter
         (fun kv => str_in (lower (fst kv))
                      ["server"; "x-powered-by"; "x-cdn"; "cf-ray"; "x-sucuri-id"])
         (resp_headers response)).

(** [SubdomainChecker._extract_cookies] *)
Definition _extract_cookies (response : Response) : gmap string string :=
  if negb (extract_cookies config) then ∅
  else dict_of_items (resp_cookies response).

Definition request (url : string) (headers : gmap string string) (verify : bool)
  : Request :=
  {| req_url := url;
     req_timeout := timeout config;
     req_headers := headers;
     req_verify := verify;
     req_allow_redirects := follow_redirects config |}.

(** The result built in the [try] body. *)
Definition full_result (host url scheme : string) (response : Response)
    (ip_address : option string) (response_time : Q) : ScanResult :=
  {| url := if follow_redirects config then resp_url response else url;
     host := host;
     status := status_code response;
     scheme := replace "://" "" scheme;
     title := extract_title P (text response);
     content_length := Z.of_nat (String.length (content response));
     server := headers_get "Server" "" (resp_headers response);
     ip_address := match ip_address with
                   | Some ip => if truthy_str ip then ip else ""
                   | None => ""
                   end;
     response_time := response_time;
     technologies :=
       if tech_detection config
       then detect_technologies P (text response) (resp_headers response) else [];
     redirect_chain := [];
     headers := _extract_headers response;
     cookies := _extract_cookies response;
     has_form := if find_forms config then detect_forms P (text response) else false;
     has_login :=
       if find_logins config then detect_login_forms P (text response) else false;
     is_wordpress := false;
     cms := if detect_cms config
            then utils_detect_cms P (text response) (resp_headers response) else "";
     waf := if detect_waf config then utils_detect_waf P (resp_headers response) else "";
     cdn := if detect_cdn config then utils_detect_cdn P (resp_headers response) else "" |}.

(** The result built in the [SSLError] handler. *)
Definition fallback_result (host url : string) (response : Response) : ScanResult :=
  {| url := if follow_redirects config then resp_url response else url;
     host := host;
     status := status_code response;
     scheme := "https";
     title := extract_title P (text response);
     content_length := Z.of_nat (String.length (content response));
     server := headers_get "Server" "" (resp_headers response);
     ip_address := "";
     response_time := 0%Q;
     technologies := [];
     redirect_chain := [];
     headers := ∅;
     cookies := ∅;
     has_form := false;
     has_login := false;
     is_wordpress := false;
     cms := "";
     waf := "";
     cdn := "" |}.

(** The body of the [for attempt] loop of [check_host]: the [try] statement
    with its four [except] clauses, tried in the order they are written.
    The two assignments that open the [try] body cannot raise and are made
    before it, so that the handler sees [url] and [headers]. *)
Definition attempt_body (host scheme : string) (attempt : Z) : M ctl :=
  let url := String.append scheme host in
  ua <- _get_next_user_agent ;;
  let headers := custom_headers config ∪ {[ "User-Agent" := ua ]} in
  try_except
    (start_time <- time_time ;;
     response <- session_get (mkSite scheme attempt false)
                   (request url headers (verify_ssl config)) ;;
     end_time <- time_time ;;
     let response_time := (end_time - start_time)%Q in
     if _should_include_status config (status_code response) then
       ip_address <- get_ip_address host ;;
       ret (Return (full_result host url scheme response ip_address response_time))
     else ret Fallthrough)
    (fun e =>
       if issubclass e SSLError then
         c <- (if verify_ssl config && String.eqb scheme "https://" then
                 try_except
                   (response <- session_get (mkSite scheme attempt true)
                                  (request url headers false) ;;
                    if _should_include_status config (status_code response)
                    then ret (Return (fallback_result host url response))
                    else ret Fallthrough)
                   (fun _ => ret Continue)
               else ret Fallthrough) ;;
         match c with
         | Fallthrough => ret Continue
         | _ => ret c
         end
       else if issubclass e Timeout then
         if (attempt <? retries config)%Z
         then time_sleep (backoff attempt) ;; ret Continue
         else ret Fallthrough
       else if issubclass e ConnectionError || issubclass e RequestException then
         ret Continue
       else if issubclass e Exception then ret Continue
       else raise e).

(** [for attempt in attempts: ...]; [Some r] when the body returned [r]. *)
Fixpoint for_attempts (host scheme : string) (attempts : list Z)
  : M (option ScanResult) :=
  match attempts with
  | [] => ret None
  | attempt :: rest =>
      c <- attempt_body host scheme attempt ;;
      match c with
      | Return r => ret (Some r)
      | Fallthrough | Continue => for_attempts host scheme rest
      end
  end.

(** [for scheme in schemes: for attempt in range(retries + 1): ...] *)
Fixpoint for_schemes (host : string) (schemes : list string)
  : M (option ScanResult) :=
  match schemes with
  | [] => ret None
  | scheme :: rest =>
      r <- for_attempts host scheme (range (retries config + 1)) ;;
      match r with
      | Some res => ret (Some res)
      | None => for_schemes host rest
      end
  end.

Definition schemes : list string :=
  (if negb (only_https config) then ["http://"] else []) ++
  (if negb (only_http config) then ["https://"] else []).

(** [SubdomainChecker.check_host] *)
Definition check_host (host : string) : M (option ScanResult) :=
  _rate_limit_wait ;;
  for_schemes host schemes.

End Engine.

(** ** Aggregation ([run_checks]) *)

(** [d[k] = d.get(k, 0) + 1] *)
Definition bump `{Countable K} (k : K) (d : gmap K Z) : gmap K Z :=
  <[k := default 0 (d !! k) + 1]> d.

(** The body of the [for future in as_completed(...)] loop on the value
    [future.result()] returned; a [ScanResult] is always true, so
    [if result:] tells [None] from a result.  The progress callback is the
    caller's and is left out. *)
Definition record_result (self : Checker) (result : option ScanResult) : Checker :=
  match result with
  | None => self
  | Some result =>
      let st := stats self in
      {| results := results self ++ [result];
         stats :=
           {| total_checked := total_checked st;
              total_found := total_found st + 1;
              start_time := start_time st;
              end_time := end_time st;
              status_distribution := bump (status result) (status_distribution st);
              tech_distribution :=
                fold_left (fun d tech => bump tech d) (technologies result)
                  (tech_distribution st);
              cms_distribution :=
                if truthy_str (cms result)
                then bump (cms result) (cms_distribution st)
                else cms_distribution st;
              waf_distribution :=
                if truthy_str (waf result)
                then bump (waf result) (waf_distribution st)
                else waf_distribution st |};
         last_request_time := last_request_time self;
         user_agents := user_agents self;
         current_user_agent := current_user_agent self |}
  end.

(** The sort key [lambda x: (x.status, x.url)]. *)
Definition sort_key (x : ScanResult) : Z * string := (status x, url x).

(** [k1 < k2] on tuples: the first components that differ decide. *)
Definition key_lt (k1 k2 : Z * string) : bool :=
  if fst k1 =? fst k2 then String.ltb (snd k1) (snd k2) else fst k1 <? fst k2.

Definition key_le (k1 k2 : Z * string) : Prop := key_lt k2 k1 = false.

Fixpoint insort {A} (key : A -> Z * string) (x : A) (l : list A) : list A :=
  match l with
  | [] => [x]
  | y :: l' =>
      if key_lt (key y) (key x) then y :: insort key x l' else x :: y :: l'
  end.

(** [list.sort(key=key)].  Python's sort is stable; a stable sort has one
    possible output, which this insertion sort computes: an element goes in
    front of the elements of equal key that came after it. *)
Definition list_sort {A} (key : A -> Z * string) (l : list A) : list A :=
  fold_right (insort key) [] l.

(** The results that are not [None]. *)
Definition found (completed : list (option ScanResult)) : list ScanResult :=
  omap id completed.

(** [SubdomainChecker.run_checks].  The thread pool is represented by what
    the main thread sees of it: [completed] lists the values of
    [future.result()] in the order [as_completed] yields them, one per
    host; [now] is the clock reading at the end.  Sorting [hosts] by length
    only changes the order of submission. *)
Definition run_checks (self : Checker) (hosts : list string)
    (completed : list (option ScanResult)) (now : Q) : Checker :=
  let st := stats self in
  let self1 :=
    {| results := results self;
       stats := {| total_checked := Z.of_nat (length hosts);
                   total_found := total_found st;
                   start_time := start_time st;
                   end_time := end_time st;
                   status_distribution := status_distribution st;
                   tech_distribution := tech_distribution st;
                   cms_distribution := cms_distribution st;
                   waf_distribution := waf_distribution st |};
       last_request_time := last_request_time self;
       user_agents := user_agents self;
       current_user_agent := current_user_agent self |} in
  let self2 := fold_left record_result completed self1 in
  let st2 := stats self2 in
  {| results := list_sort sort_key (results self2);
     stats := {| total_checked := total_checked st2;
                 total_found := total_found st2;
                 start_time := start_time st2;
                 end_time := now;
                 status_distribution := status_distribution st2;
                 tech_distribution := tech_distribution st2;
                 cms_distribution := cms_distribution st2;
                 waf_distribution := waf_distribution st2 |};
     last_request_time := last_request_time self2;
     user_agents := user_agents self2;
     current_user_agent := current_user_agent self2 |}.

(** The sum of the counts of a distribution. *)
Definition dist_total `{Countable K} (d : gmap K Z) : Z :=
  map_fold (fun _ n acc => n + acc) 0 d.

(** The order of the sort on the results. *)
Definition le_by {A} (key : A -> Z * string) (x y : A) : Prop :=
  key_le (key x) (key y).

(** What the aggregation maintains: the counter and the list agree, and so do
    the status distribution and the counter. *)
Definition aggregated (self : Checker) : Prop :=
  total_found (stats self) = Z.of_nat (length (results self)) /\
  dist_total (status_distribution (stats self)) = total_found (stats self).


(** ** Runs of [check_host] and their traces *)

Definition outcome_of {A S} (run : result A * S * list event) : result A :=
  fst (fst run).

Definition trace_of {A S} (run : result A * S * list event) : list event :=
  snd run.

(** The requests of the [try] body: the probe attempts. *)
Definition is_probe (e : event) : bool :=
  match e with
  | EvGet site _ _ => negb (in_handler site)
  | _ => false
  end.

Definition is_gate (e : event) : bool :=
  match e with EvGate => true | _ => false end.

(** The number of times the gate is called. *)
Definition gate_calls (tr : list event) : nat := length (List.filter is_gate tr).

(** The number of probe attempts. *)
Definition probes (tr : list event) : nat := length (List.filter is_probe tr).

(** The number of probe attempts on a scheme. *)
Definition probes_on (s : string) (tr : list event) : nat :=
  length
    (List.filter
       (fun e => is_probe e &&
                 match e with
                 | EvGet site _ _ => String.eqb (at_scheme site) s
                 | _ => false
                 end) tr).

(** The lengths of the sleeps, in order. *)
Definition sleeps (tr : list event) : list Q :=
  omap (fun e => match e with EvSleep secs => Some secs | _ => None end) tr.

(** The value returned, [None] also when the call raised. *)
Definition returned {S} (run : result (option ScanResult) * S * list event)
  : option ScanResult :=
  match outcome_of run with
  | Ok r => r
  | Raise _ => None
  end.

(** A request, if the event is one, was made for scheme [s]. *)
Definition on_scheme (s : string) (e : event) : Prop :=
  match e with
  | EvGet site _ _ => at_scheme site = s
  | _ => True
  end.

(** The event, if a request, records what the network answered to it in
    some state of the world. *)
Definition observed (P : Platform) (e : event) : Prop :=
  match e with
  | EvGet _ req out => exists w, fst (net_get P req w) = out
  | _ => True
  end.

(** The events of the gate: its call, then at most one sleep. *)
Definition gate_events (tr : list event) : Prop :=
  tr = [EvGate] \/ exists secs, tr = [EvGate; EvSleep secs].

(** [R x rest] holds of every event [x] of the trace, [rest] being the events
    after it. *)
Fixpoint all_suffix (R : event -> list event -> Prop) (tr : list event) : Prop :=
  match tr with
  | [] => True
  | x :: rest => R x rest /\ all_suffix R rest
  end.

Section Outcomes.

Variable P : Platform.
Variable config : ScanConfig.
Variable host : string.

Definition passes (response : Response) : bool :=
  _should_include_status config (status_code response).

(** The request of the [try] body at [(scheme, attempt)] and its outcome. *)
Definition probe (scheme : string) (attempt : Z) (hdrs : gmap string string)
    (out : exn + Response) : event :=
  EvGet (mkSite scheme attempt false)
    (request config (String.append scheme host) hdrs (verify_ssl config)) out.

(** The request of the [SSLError] handler: the same, unverified. *)
Definition fallback (scheme : string) (attempt : Z) (hdrs : gmap string string)
    (out : exn + Response) : event :=
  EvGet (mkSite scheme attempt true)
    (request config (String.append scheme host) hdrs false) out.

Definition can_fall_back (scheme : string) : bool :=
  verify_ssl config && String.eqb scheme "https://".

(** The events of one pass through the loop body and how it ends. *)
Inductive attempt_outcome (s : string) (a : Z) : list event -> ctl -> Prop :=
| AO_live hdrs resp ip rt :
    passes resp = true ->
    attempt_outcome s a [probe s a hdrs (inr resp)]
      (Return (full_result P config host (String.append s host) s resp ip rt))
| AO_nomatch hdrs resp :
    passes resp = false ->
    attempt_outcome s a [probe s a hdrs (inr resp)] Fallthrough
| AO_ssl_live hdrs e resp :
    issubclass e SSLError = true -> can_fall_back s = true ->
    passes resp = true ->
    attempt_outcome s a [probe s a hdrs (inl e); fallback s a hdrs (inr resp)]
      (Return (fallback_result P config host (String.append s host) resp))
| AO_ssl_nomatch hdrs e resp :
    issubclass e SSLError = true -> can_fall_back s = true ->
    passes resp = false ->
    attempt_outcome s a [probe s a hdrs (inl e); fallback s a hdrs (inr resp)]
      Continue
| AO_ssl_raise hdrs e e' :
    issubclass e SSLError = true -> can_fall_back s = true ->
    attempt_outcome s a [probe s a hdrs (inl e); fallback s a hdrs (inl e')]
      Continue
| AO_ssl_plain hdrs e :
    issubclass e SSLError = true -> can_fall_back s = false ->
    attempt_outcome s a [probe s a hdrs (inl e)] Continue
| AO_timeout_retry hdrs e :
    issubclass e SSLError = false -> issubclass e Timeout = true ->
    a < retries config ->
    attempt_outcome s a [probe s a hdrs (inl e); EvSleep (backoff a)] Continue
| AO_timeout_last hdrs e :
    issubclass e SSLError = false -> issubclass e Timeout = true ->
    retries config <= a ->
    attempt_outcome s a [probe s a hdrs (inl e)] Fallthrough
| AO_other hdrs e :
    issubclass e SSLError = false -> issubclass e Timeout = false ->
    attempt_outcome s a [probe s a hdrs (inl e)] Continue.

(** The events of the [for attempt] loop over a list of attempts. *)
Inductive attempts_trace (s : string)
  : list Z -> list event -> option ScanResult -> Prop :=
| AT_done : attempts_trace s [] [] None
| AT_return a rest tr r :
    attempt_outcome s a tr (Return r) ->
    attempts_trace s (a :: rest) tr (Some r)
| AT_next a rest tr c tr' res :
    attempt_outcome s a tr c -> c = Fallthrough \/ c = Continue ->
    attempts_trace s rest tr' res ->
    attempts_trace s (a :: rest) (tr ++ tr') res.

(** The events of the [for scheme] loop over a list of schemes. *)
Inductive schemes_trace : list string -> list event -> option ScanResult -> Prop :=
| ST_done : schemes_trace [] [] None
| ST_return s rest tr r :
    attempts_trace s (range (retries config + 1)) tr (Some r) ->
    schemes_trace (s :: rest) tr (Some r)
| ST_next s rest tr tr' res :
    attempts_trace s (range (retries config + 1)) tr None ->
    schemes_trace rest tr' res ->
    schemes_trace (s :: rest) (tr ++ tr') res.

(** The request whose answer passed the filter, last in the trace. *)
Definition ends_with_match (tr : list event) : Prop :=
  exists pre site req resp,
    tr = pre ++ [EvGet site req (inr resp)] /\ passes resp = true.

(** *** What follows a request *)

(** The trace goes on with the probe attempt [(s, a)]. *)
Definition starts_with_probe (s : string) (a : Z) (tr : list event) : Prop :=
  exists hdrs out tr', tr = probe s a hdrs out :: tr'.

(** [final] is the value [check_host] returns at the end of the run. *)
Variable final : option ScanResult.

(** After the last attempt on [s]: the first attempt on the next scheme, or
    the end of the run with [None] when [s] is the last scheme. *)
Definition next_scheme (s : string) (rest : list event) : Prop :=
  (s = "http://" /\ only_http config = false /\
   starts_with_probe "https://" 0 rest) \/
  (~ (s = "http://" /\ only_http config = false) /\ rest = [] /\ final = None).

(** After an attempt [(s, a)] that did not return: the next attempt on [s]
    while [a < retries], the next scheme after that; no sleep. *)
Definition moves_on (s : string) (a : Z) (rest : list event) : Prop :=
  (a < retries config /\ starts_with_probe s (a + 1) rest) \/
  (retries config <= a /\ next_scheme s rest).

(** The run ends here and returns [r]. *)
Definition returns (r : ScanResult) (rest : list event) : Prop :=
  rest = [] /\ final = Some r.

Definition after_probe (s : string) (a : Z) (hdrs : gmap string string)
    (out : exn + Response) (rest : list event) : Prop :=
  match out with
  | inr resp =>
      if passes resp
      then exists ip rt,
          returns (full_result P config host (String.append s host) s resp ip rt) rest
      else moves_on s a rest
  | inl e =>
      if issubclass e SSLError then
        if can_fall_back s
        then exists out' rest', rest = fallback s a hdrs out' :: rest'
        else moves_on s a rest
      else if issubclass e Timeout then
        (a < retries config /\
         exists rest', rest = EvSleep (backoff a) :: rest' /\
                       starts_with_probe s (a + 1) rest') \/
        (retries config <= a /\ next_scheme s rest)
      else moves_on s a rest
  end.

Definition after_fallback (s : string) (a : Z) (out : exn + Response)
    (rest : list event) : Prop :=
  match out with
  | inr resp =>
      if passes resp
      then returns (fallback_result P config host (String.append s host) resp) rest
      else moves_on s a rest
  | inl _ => moves_on s a rest
  end.

(** The rule every request [x] of a run obeys, [rest] being the events
    after it. *)
Definition rule (x : event) (rest : list event) : Prop :=
  match x with
  | EvGet site req out =>
      let s := at_scheme site in
      let a := at_attempt site in
      In s (schemes config) /\ 0 <= a <= retries config /\
      exists hdrs,
        if in_handler site
        then x = fallback s a hdrs out /\ can_fall_back s = true /\
             after_fallback s a out rest
        else x = probe s a hdrs out /\ after_probe s a hdrs out rest
  | _ => True
  end.

End Outcomes.

(** ** The claims as the specification states them, where the code differs *)

(** Every probe attempt has a gate call of its own before it: [armed] tells
    whether the gate was called since the last probe attempt. *)
Fixpoint gated (armed : bool) (tr : list event) : bool :=
  match tr with
  | [] => true
  | EvGate :: tr' => gated true tr'
  | EvSleep _ :: tr' => gated armed tr'
  | EvGet site _ _ :: tr' =>
      if in_handler site then gated armed tr' else armed && gated false tr'
  end.

(** After a probe attempt that failed with an error that is neither an SSL
    error nor a timeout, no further attempt is made on its scheme. *)
Definition abandons_scheme_on_failure (tr : list event) : Prop :=
  forall pre site req e post,
    tr = pre ++ EvGet site req (inl e) :: post ->
    in_handler site = false ->
    issubclass e SSLError = false -> issubclass e Timeout = false ->
    Forall (fun x => is_probe x = true -> ~ on_scheme (at_scheme site) x) post.

(** The list [run_checks] returns does not depend on the order in which the
    results were recorded. *)
Definition order_independent (self : Checker) (hosts : list string) (now : Q) : Prop :=
  forall completed1 completed2,
    Permutation completed1 completed2 ->
    results (run_checks self hosts completed1 now) =
    results (run_checks self hosts completed2 now).

(** ** Test doubles *)

Definition blank_response (code : Z) (final_url : string) : Response :=
  {| status_code := code; resp_url := final_url; text := ""; content := "";
     resp_headers := []; resp_cookies := [] |}.

(** A network that answers by [answer], which sees the request and the number
    of requests made before it; the clock stands still and nothing
    resolves. *)
Definition mock (answer : Request -> nat -> exn + Response) : Platform :=
  {| World := nat;
     net_get := fun req w => (answer req w, S w);
     clock := fun w => (0%Q, w);
     pause := fun _ w => w;
     resolve := fun _ w => (None, w);
     pick := fun _ w => (O, w);
     extract_title := fun _ => "";
     detect_technologies := fun _ _ => [];
     utils_detect_cms := fun _ _ => "";
     utils_detect_waf := fun _ => "";
     utils_detect_cdn := fun _ => "";
     detect_forms := fun _ => false;
     detect_login_forms := fun _ => false |}.

(** Every connection is refused. *)
Definition refusing : Platform := mock (fun _ _ => inl ConnectionError).

(** Every request times out. *)
Definition stalling : Platform := mock (fun _ _ => inl ReadTimeout).

(** Certificates do not verify; unverified requests are answered [200]. *)
Definition self_signed : Platform :=
  mock (fun req _ =>
          if req_verify req then inl SSLError
          else inr (blank_response 200 (req_url req))).

(** Plain [http] is refused, [https] is answered [200]. *)
Definition https_only : Platform :=
  mock (fun req _ =>
          if String.prefix "https://" (req_url req)
          then inr (blank_response 200 (req_url req))
          else inl ConnectionError).

(** The first [n] requests time out, the following ones are answered
    [200]. *)
Definition flaky (n : nat) : Platform :=
  mock (fun req k =>
          if (k <? n)%nat then inl ReadTimeout
          else inr (blank_response 200 (req_url req))).

(** The default configuration with some of its fields replaced. *)
Definition test_config (rate : option Z) (n_retries : Z) (excluded : list Z)
    (https_only_flag http_only_flag : bool) : ScanConfig := {|
  timeout := timeout default_config;
  max_workers := max_workers default_config;
  match_codes := match_codes default_config;
  verify_ssl := verify_ssl default_config;
  rate_limit := rate;
  retries := n_retries;
  follow_redirects := follow_redirects default_config;
  tech_detection := tech_detection default_config;
  detect_waf := detect_waf default_config;
  detect_cms := detect_cms default_config;
  detect_cdn := detect_cdn default_config;
  extract_headers := extract_headers default_config;
  extract_cookies := extract_cookies default_config;
  find_forms := find_forms default_config;
  find_logins := find_logins default_config;
  random_user_agent := random_user_agent default_config;
  custom_user_agent := custom_user_agent default_config;
  custom_headers := custom_headers default_config;
  proxy := proxy default_config;
  exclude_codes := excluded;
  include_codes := include_codes default_config;
  only_https := https_only_flag;
  only_http := http_only_flag
|}.

(** Ten requests per second. *)
Definition limited_config : ScanConfig := test_config (Some 10) 1 [] false false.

(** Both scheme restrictions at once. *)
Definition no_scheme_config : ScanConfig := test_config None 1 [] true true.

(** A checker just built, in a world where no request was made yet. *)
Definition fresh (P : Platform) (w : World P) : St P := init P w.

(** A live result with only the fields the sort reads and the host filled. *)
Definition live (h : string) (code : Z) (u : string) : ScanResult :=
  {| url := u; host := h; status := code; scheme := "https"; title := "";
     content_length := 0; server := ""; ip_address := ""; response_time := 0%Q;
     technologies := []; redirect_chain := []; headers := ∅; cookies := ∅;
     has_form := false; has_login := false; is_wordpress := false;
     cms := ""; waf := ""; cdn := "" |}.

(** ** Further vocabulary *)

(** A clock that sleeping advances by what was asked, and that no reading
    moves back. *)
Definition honest_clock (P : Platform) : Prop :=
  (forall w : World P, (fst (clock P w) <= fst (clock P (snd (clock P w))))%Q) /\
  (forall (secs : Q) (w : World P),
      (fst (clock P w) + secs <= fst (clock P (pause P secs w)))%Q).

(** The world is the time; a sleep adds its length to it. *)
Definition ticking : Platform :=
  {| World := Q;
     net_get := fun _ w => (inl ConnectionError, w);
     clock := fun w => (w, w);
     pause := fun secs w => (w + secs)%Q;
     resolve := fun _ w => (None, w);
     pick := fun _ w => (O, w);
     extract_title := fun _ => "";
     detect_technologies := fun _ _ => [];
     utils_detect_cms := fun _ _ => "";
     utils_detect_waf := fun _ => "";
     utils_detect_cdn := fun _ => "";
     detect_forms := fun _ => false;
     detect_login_forms := fun _ => false |}.


(** [k] calls of [_get_next_user_agent] in a row: what they return, and the
    state they leave. *)
Fixpoint next_user_agents (P : Platform) (config : ScanConfig) (k : nat) (st : St P)
  : list (result string) * St P :=
  match k with
  | O => ([], st)
  | S k' =>
      match _get_next_user_agent P config st with
      | (r, st1, _) =>
          match next_user_agents P config k' st1 with
          | (rs, st2) => (r :: rs, st2)
          end
      end
  end.

(** The header names [_extract_headers] keeps. *)
Definition kept_headers : list string :=
  ["server"; "x-powered-by"; "x-cdn"; "cf-ray"; "x-sucuri-id"].

(** The value of the last pair of [items] whose key is [k]. *)
Definition last_value (k : string) (items : list (string * string)) : option string :=
  option_map snd (List.find (fun kv => String.eqb (fst kv) k) (rev items)).


Definition is_get (e : event) : bool :=
  match e with EvGet _ _ _ => true | _ => false end.

(** The requests of the [SSLError] handler. *)
Definition is_handler_get (e : event) : bool :=
  match e with EvGet site _ _ => in_handler site | _ => false end.

(** The number of requests sent. *)
Definition requests (tr : list event) : nat := length (List.filter is_get tr).

(** The number of requests sent by the [SSLError] handler. *)
Definition handler_requests (tr : list event) : nat :=
  length (List.filter is_handler_get tr).

(** Every request is answered with the status [code]. *)
Definition answering (code : Z) : Platform :=
  mock (fun req _ => inr (blank_response code (req_url req))).

(** Certificates do not verify, and unverified requests are refused. *)
Definition broken_tls : Platform :=
  mock (fun req _ => if req_verify req then inl SSLError else inl ConnectionError).

(** Every toggle on, user agents in rotation. *)
Definition detailed_config : ScanConfig := {|
  timeout := 5;
  max_workers := 50;
  match_codes := [200; 201; 202; 204; 301; 302; 307; 308; 401; 403];
  verify_ssl := true;
  rate_limit := None;
  retries := 1;
  follow_redirects := false;
  tech_detection := true;
  detect_waf := true;
  detect_cms := true;
  detect_cdn := true;
  extract_headers := true;
  extract_cookies := true;
  find_forms := true;
  find_logins := true;
  random_user_agent := false;
  custom_user_agent := None;
  custom_headers := ∅;
  proxy := None;
  exclude_codes := [];
  include_codes := [];
  only_https := false;
  only_http := false
|}.


(** The number of times [k] occurs in [l]. *)
Definition occurrences `{EqDecision K} (k : K) (l : list K) : Z :=
  Z.of_nat (length (List.filter (fun x => bool_decide (x = k)) l)).

(** [d[k] = d.get(k, 0) + 1] for each [k] of [keys] in turn. *)
Definition bump_all `{Countable K} (keys : list K) (d : gmap K Z) : gmap K Z :=
  fold_left (fun d k => bump k d) keys d.

(** The technologies of all the results, with repetitions. *)
Definition all_technologies (rs : list ScanResult) : list string :=
  concat (map technologies rs).

(** The non-empty values of a string field of the results. *)
Definition named (field : ScanResult -> string) (rs : list ScanResult) : list string :=
  List.filter truthy_str (map field rs).


(** ** Cleaning a candidate ([core/utils.py]) *)

(** [c.isspace()] on the ASCII range. *)
Definition is_space (c : ascii) : bool :=
  let n := N_of_ascii c in
  (((9 <=? n) && (n <=? 13)) || ((28 <=? n) && (n <=? 32)))%N.

Fixpoint lstrip (s : string) : string :=
  match s with
  | EmptyString => EmptyString
  | String c s' => if is_space c then lstrip s' else s
  end.

(** [s.rstrip(chars)], [p] telling the characters to strip. *)
Fixpoint rstrip_by (p : ascii -> bool) (s : string) : string :=
  match s with
  | EmptyString => EmptyString
  | String c s' =>
      match rstrip_by p s' with
      | EmptyString => if p c then EmptyString else String c EmptyString
      | r => String c r
      end
  end.

(** [s.strip()] *)
Definition strip (s : string) : string := lstrip (rstrip_by is_space s).

(** [s.split(sep)] for a non-empty [sep], scanning from the left; [skip]
    counts the characters of a separator just found that are still to be
    passed. *)
Fixpoint split_from (sep : string) (skip : nat) (s : string) : list string :=
  match s with
  | EmptyString => [EmptyString]
  | String c s' =>
      match skip with
      | S k => split_from sep k s'
      | O =>
          if String.prefix sep s
          then EmptyString :: split_from sep (Nat.pred (String.length sep)) s'
          else match split_from sep O s' with
               | piece :: pieces => String c piece :: pieces
               | [] => [String c EmptyString]
               end
      end
  end.

Definition split (sep s : string) : list string := split_from sep O s.

(** [c in s] for a character. *)
Fixpoint has_char (c : ascii) (s : string) : bool :=
  match s with
  | EmptyString => false
  | String x s' => Ascii.eqb x c || has_char c s'
  end.

Fixpoint last_char (s : string) : option ascii :=
  match s with
  | EmptyString => None
  | String c EmptyString => Some c
  | String _ s' => last_char s'
  end.

Definition is_upper (c : ascii) : bool :=
  let n := N_of_ascii c in ((65 <=? n) && (n <=? 90))%N.

(** The characters of a host name in lower case: [a-z], [0-9], [-] and [.]. *)
Definition host_char (c : ascii) : bool :=
  let n := N_of_ascii c in
  (((97 <=? n) && (n <=? 122)) || ((48 <=? n) && (n <=? 57)) ||
   (n =? 45) || (n =? 46))%N.

Fixpoint all_chars (p : ascii -> bool) (s : string) : bool :=
  match s with
  | EmptyString => true
  | String c s' => p c && all_chars p s'
  end.

(** ** Fingerprints from the headers ([core/utils.py]) *)

(** [needle in hay] on strings. *)
Fixpoint contains (needle hay : string) : bool :=
  String.prefix needle hay ||
  match hay with
  | EmptyString => false
  | String _ hay' => contains needle hay'
  end.

(** The loop of [detect_waf] and [detect_cdn] over a table of indicators, in
    the order of the table: the name of the first entry one of whose
    indicators, in lower case, occurs in [text]; the empty string when there
    is none. *)
Fixpoint first_match (table : list (string * list string)) (text : string) : string :=
  match table with
  | [] => ""
  | (name, indicators) :: table' =>
      if existsb (fun indicator => contains (lower indicator) text) indicators
      then name
      else first_match table' text
  end.

(** [' '.join(headers.keys()).lower() + ' ' + ' '.join(headers.values()).lower()] *)
Definition header_str (headers : list (string * string)) : string :=
  String.append (lower (String.concat " " (map fst headers)))
    (String.append " " (lower (String.concat " " (map snd headers)))).

Module utils.

(** [utils.clean_domain], on ASCII text. *)
Definition clean_domain (domain : string) : string :=
  let domain := strip domain in
  let domain :=
    if contains "://" domain then List.last (split "://" domain) "" else domain in
  let domain := hd "" (split "/" domain) in
  let domain := hd "" (split ":" domain) in
  let domain := replace "*." "" domain in
  let domain := rstrip_by (Ascii.eqb ".") domain in
  lower domain.

Definition waf_indicators : list (string * list string) := [
  ("Cloudflare", ["cloudflare"; "cf-ray"; "__cfduid"]);
  ("CloudFront", ["x-amz-cf-id"; "cloudfront"]);
  ("Akamai", ["akamai"; "x-akamai"]);
  ("Sucuri", ["x-sucuri-id"; "sucuri"]);
  ("Incapsula", ["incap_ses"; "visid_incap"]);
  ("ModSecurity", ["mod_security"]);
  ("Barracuda", ["barracuda"]);
  ("FortiWeb", ["fortiweb"]);
  ("AWS WAF", ["x-aws-waf"]);
  ("Imperva", ["x-cdn"; "imperva"])
].

Definition cdn_indicators : list (string * list string) := [
  ("Cloudflare", ["cloudflare"; "cf-ray"]);
  ("CloudFront", ["x-amz-cf-id"]);
  ("Akamai", ["x-akamai"]);
  ("Fastly", ["x-fastly"]);
  ("Google Cloud CDN", ["server-timing"; "google"]);
  ("Azure CDN", ["x-azure-ref"]);
  ("StackPath", ["server"; "stackpath"]);
  ("KeyCDN", ["x-edge-location"; "keycdn"]);
  ("BunnyCDN", ["bunnycdn"; "pullzone"]);
  ("CDN77", ["cdn77"])
].

(** [utils.detect_waf] *)
Definition detect_waf (headers : list (string * string)) : string :=
  first_match waf_indicators (header_str headers).

(** [utils.detect_cdn] *)
Definition detect_cdn (headers : list (string * string)) : string :=
  first_match cdn_indicators (header_str headers).

End utils.

(** An indicator of the entry occurs in the text. *)
Definition entry_matches (text : string) (entry : string * list string) : Prop :=
  exists indicator, In indicator (snd entry) /\ contains (lower indicator) text = true.

(** ** The rates of a scan ([core/models.py]) *)

(** [ScanStats.success_rate], the quotient as a rational. *)
Definition success_rate (s : ScanStats) : Q :=
  if total_checked s =? 0 then 0%Q
  else (inject_Z (total_found s) / inject_Z (total_checked s) * 100)%Q.

(** * Properties *)

(** ** The status filter *)

Lemma py_in_In x xs : py_in x xs = true <-> In x xs.
Proof.
  unfold py_in. rewrite existsb_exists. split.
  - intros [y [Hy Heq]]. apply Z.eqb_eq in Heq. now subst.
  - intros H. exists x. split; [assumption | apply Z.eqb_refl].
Qed.

Lemma py_in_false x xs : py_in x xs = false <-> ~ In x xs.
Proof.
  rewrite <- py_in_In. destruct (py_in x xs); split; congruence.
Qed.

(** C1. The status filter excludes a status of [exclude_codes]; otherwise it
    excludes it when [include_codes] is non-empty and does not hold it;
    otherwise it includes it exactly when it is in [match_codes].  In
    particular a status of [exclude_codes] is refused even when it is also in
    [match_codes]. *)
Theorem should_include_status_spec :
  forall (config : ScanConfig) (st : Z),
    (In st (exclude_codes config) -> _should_include_status config st = false) /\
    (~ In st (exclude_codes config) ->
     include_codes config <> [] -> ~ In st (include_codes config) ->
     _should_include_status config st = false) /\
    (~ In st (exclude_codes config) ->
     (include_codes config = [] \/ In st (include_codes config)) ->
     (_should_include_status config st = true <-> In st (match_codes config))) /\
    (_should_include_status config st = true <-> shouldInclude st config) /\
    (In st (exclude_codes config) -> In st (match_codes config) ->
     _should_include_status config st = false).
Proof.
  intros config st. unfold _should_include_status, shouldInclude.
  destruct (py_in st (exclude_codes config)) eqn:Hex;
    [apply py_in_In in Hex | apply py_in_false in Hex];
  (destruct (py_in st (include_codes config)) eqn:Hin;
    [apply py_in_In in Hin | apply py_in_false in Hin]);
  destruct (exclude_codes config) as [|e es];
  destruct (include_codes config) as [|i0 ins]; simpl;
  rewrite ?py_in_In; simpl in *;
  intuition (try congruence).
Qed.


Example exclude_beats_match :
  py_in 200 (match_codes (test_config None 1 [200] false false)) = true /\
  _should_include_status (test_config None 1 [200] false false) 200 = false /\
  _should_include_status default_config 200 = true /\
  _should_include_status default_config 500 = false.
Proof. repeat split. Qed.

(** ** The loop body and the loops *)

Lemma all_suffix_at R pre x post :
  all_suffix R (pre ++ x :: post) -> R x post.
Proof.
  induction pre as [|y pre IH]; cbn [app all_suffix]; intros [H1 H2]; auto.
Qed.

Lemma all_suffix_app_l (R : event -> list event -> Prop) tr1 tr2 :
  Forall (fun x => forall rest, R x rest) tr1 ->
  all_suffix R tr2 -> all_suffix R (tr1 ++ tr2).
Proof.
  induction 1 as [|x tr1 Hx _ IH]; cbn [app all_suffix]; auto.
Qed.

Lemma range_seq n : range n = map Z.of_nat (seq 0 (Z.to_nat n)).
Proof. reflexivity. Qed.

Lemma range_length n : length (range n) = Z.to_nat n.
Proof. unfold range. now rewrite length_map, length_seq. Qed.

Section Runs.

Variable P : Platform.
Variable config : ScanConfig.
Variable host : string.

Lemma get_next_user_agent_total (st : St P) :
  exists ua st', _get_next_user_agent P config st = (Ok ua, st', []).
Proof.
  unfold _get_next_user_agent.
  destruct (custom_user_agent config) as [ua|].
  - destruct (truthy_str ua).
    + eexists _, _. reflexivity.
    + destruct (random_user_agent config).
      * unfold get_random_user_agent.
        destruct (pick P _ (snd st)) as [i w]. eexists _, _. reflexivity.
      * eexists _, _. reflexivity.
  - destruct (random_user_agent config).
    + unfold get_random_user_agent.
      destruct (pick P _ (snd st)) as [i w]. eexists _, _. reflexivity.
    + eexists _, _. reflexivity.
Qed.

Local Ltac finish_run :=
  eexists _, _, _; split; [reflexivity|]; cbn [app];
  split; [|repeat constructor; cbn [observed]; eauto using f_equal].

(** One pass through the loop body never raises, and its events and its
    end are one of the nine cases of [attempt_outcome]. *)
Lemma attempt_body_outcome (s : string) (a : Z) (st : St P) :
  exists c st' tr,
    attempt_body P config host s a st = (Ok c, st', tr) /\
    attempt_outcome P config host s a tr c /\
    Forall (observed P) tr.
Proof.
  unfold attempt_body.
  destruct (get_next_user_agent_total st) as (ua & st1 & Hua).
  unfold bind at 1. rewrite Hua.
  set (hdrs := custom_headers config ∪ {[ "User-Agent" := ua ]}).
  unfold try_except, bind, time_time, session_get, get_ip_address, time_sleep,
    ret, raise.
  destruct (clock P (snd st1)) as [t0 w0]. cbn [fst snd].
  destruct (net_get P _ w0) as [[e|resp] w1] eqn:Hget; cbn [fst snd];
    apply (f_equal fst) in Hget; cbn [fst] in Hget.
  - (* the request raised: the [except] clauses in order *)
    destruct (issubclass e SSLError) eqn:Hssl.
    + destruct (verify_ssl config && String.eqb s "https://") eqn:Hfb.
      * cbv beta iota. cbn [fst snd].
        match goal with |- context [net_get P ?r w1] =>
          destruct (net_get P r w1) as [[e'|resp'] w2] eqn:Hget' end;
          cbn [fst snd]; apply (f_equal fst) in Hget'; cbn [fst] in Hget'.
        -- finish_run. apply AO_ssl_raise; assumption.
        -- destruct (_should_include_status config (status_code resp')) eqn:Hp.
           ++ finish_run. apply AO_ssl_live; assumption.
           ++ finish_run. apply AO_ssl_nomatch; assumption.
      * finish_run. apply AO_ssl_plain; assumption.
    + destruct (issubclass e Timeout) eqn:Hto.
      * destruct (a <? retries config) eqn:Ha.
        -- finish_run. apply AO_timeout_retry; try assumption. now apply Z.ltb_lt.
        -- finish_run. apply AO_timeout_last; try assumption. now apply Z.ltb_ge.
      * destruct (issubclass e ConnectionError || issubclass e RequestException).
        -- finish_run. apply AO_other; assumption.
        -- destruct (issubclass e Exception) eqn:Hex.
           ++ finish_run. apply AO_other; assumption.
           ++ destruct e; discriminate.
  - (* the request was answered *)
    destruct (clock P w1) as [t1 w2]. cbn [fst snd].
    destruct (_should_include_status config (status_code resp)) eqn:Hp.
    + cbv beta iota. cbn [fst snd].
      destruct (resolve P host w2) as [ip w3]. cbn [fst snd].
      finish_run. apply AO_live; assumption.
    + finish_run. apply AO_nomatch; assumption.
Qed.

Lemma for_attempts_trace (s : string) (attempts : list Z) :
  forall st : St P, exists res st' tr,
    for_attempts P config host s attempts st = (Ok res, st', tr) /\
    attempts_trace P config host s attempts tr res /\
    Forall (observed P) tr.
Proof.
  induction attempts as [|a rest IH]; intros st.
  - eexists _, _, _. split; [reflexivity|]. split; constructor.
  - cbn [for_attempts]. unfold bind.
    destruct (attempt_body_outcome s a st) as (c & st1 & tr1 & Hrun & Hout & Hobs).
    rewrite Hrun.
    destruct c as [| |r].
    + destruct (IH st1) as (res & st2 & tr2 & Hrest & Htr & Hobs2). rewrite Hrest.
      eexists _, _, _. split; [reflexivity|].
      split; [eapply AT_next; eauto | now apply Forall_app].
    + destruct (IH st1) as (res & st2 & tr2 & Hrest & Htr & Hobs2). rewrite Hrest.
      eexists _, _, _. split; [reflexivity|].
      split; [eapply AT_next; eauto | now apply Forall_app].
    + eexists _, _, _. split; [reflexivity|]. cbn [ret].
      rewrite app_nil_r. split; [now apply AT_return | assumption].
Qed.

Lemma for_schemes_trace (ss : list string) :
  forall st : St P, exists res st' tr,
    for_schemes P config host ss st = (Ok res, st', tr) /\
    schemes_trace P config host ss tr res /\
    Forall (observed P) tr.
Proof.
  induction ss as [|s rest IH]; intros st.
  - eexists _, _, _. split; [reflexivity|]. split; constructor.
  - cbn [for_schemes]. unfold bind.
    destruct (for_attempts_trace s (range (retries config + 1)) st)
      as (r & st1 & tr1 & Hrun & Hout & Hobs).
    rewrite Hrun. destruct r as [r|].
    + eexists _, _, _. split; [reflexivity|]. cbn [ret].
      rewrite app_nil_r. split; [now apply ST_return | assumption].
    + destruct (IH st1) as (res & st2 & tr2 & Hrest & Htr & Hobs2). rewrite Hrest.
      eexists _, _, _. split; [reflexivity|].
      split; [now apply ST_next | now apply Forall_app].
Qed.

Lemma rate_limit_wait_events (st : St P) :
  exists st' tr,
    _rate_limit_wait P config st = (Ok tt, st', tr) /\ gate_events tr.
Proof.
  unfold _rate_limit_wait, gate_events, bind, emit.
  destruct (rate_limit config) as [rate|].
  - destruct (rate =? 0).
    + eexists _, _. split; [reflexivity|]. now left.
    + unfold time_time, get_self, put_self, time_sleep, ret. cbn [fst snd].
      destruct (clock P (snd st)) as [t0 w0]. cbn [fst snd].
      destruct (negb (Qle_bool _ _)); cbn [fst snd].
      * destruct (clock P _) as [t1 w1]. cbn [fst snd].
        eexists _, _. split; [reflexivity|]. right. eexists. reflexivity.
      * destruct (clock P _) as [t1 w1]. cbn [fst snd].
        eexists _, _. split; [reflexivity|]. now left.
  - eexists _, _. split; [reflexivity|]. now left.
Qed.

(** A run of [check_host]: it returns, and its trace is the events of the
    gate followed by those of the loop over the schemes. *)
Lemma check_host_run (st : St P) :
  exists res st' g tr,
    check_host P config host st = (Ok res, st', g ++ tr) /\
    gate_events g /\
    schemes_trace P config host (schemes config) tr res /\
    Forall (observed P) tr.
Proof.
  unfold check_host, bind.
  destruct (rate_limit_wait_events st) as (st1 & g & Hg & Hev). rewrite Hg.
  destruct (for_schemes_trace (schemes config) st1)
    as (res & st2 & tr & Hrun & Htr & Hobs).
  rewrite Hrun. eexists _, _, _, _. split; [reflexivity|]. auto.
Qed.

End Runs.

(** ** The rule of the requests *)

(** The head of the rule for the event at [(s, a)]. *)
Local Ltac rule_head Hs Hrange hdrs :=
  cbn [rule probe fallback at_scheme at_attempt in_handler];
  split; [exact Hs|]; split; [exact Hrange|]; exists hdrs;
  split; [reflexivity|].

Section Rules.

Variable P : Platform.
Variable config : ScanConfig.
Variable host : string.
Variable final : option ScanResult.

Local Abbreviation attempt_outcome := (attempt_outcome P config host).
Local Abbreviation attempts_trace := (attempts_trace P config host).
Local Abbreviation schemes_trace := (schemes_trace P config host).
Local Abbreviation probe := (probe config host).
Local Abbreviation fallback := (fallback config host).
Local Abbreviation starts_with_probe := (starts_with_probe config host).
Local Abbreviation next_scheme := (next_scheme config host final).
Local Abbreviation moves_on := (moves_on config host final).
Local Abbreviation rule := (rule P config host final).

Lemma attempts_trace_nil s tr res :
  attempts_trace s [] tr res -> tr = [] /\ res = None.
Proof. inversion 1; auto. Qed.

Lemma attempt_outcome_nonempty s a tr c : attempt_outcome s a tr c -> tr <> [].
Proof. inversion 1; discriminate. Qed.

Lemma attempts_trace_nonempty s atts tr res :
  attempts_trace s atts tr res -> atts <> [] -> tr <> [].
Proof.
  inversion 1 as [|a rest tr0 r Ho|a rest tr0 c tr' res0 Ho]; subst; intros Hne.
  - congruence.
  - eapply attempt_outcome_nonempty; eassumption.
  - intros Happ. apply app_eq_nil in Happ. destruct Happ as [Hnil _].
    eapply attempt_outcome_nonempty; eassumption.
Qed.

Lemma attempt_outcome_starts s a tr c :
  attempt_outcome s a tr c -> forall k, starts_with_probe s a (tr ++ k).
Proof. inversion 1; subst; intros k; now eexists _, _, _. Qed.

Local Ltac use_flags :=
  repeat match goal with
    | H : passes _ _ = _ |- _ => rewrite H
    | H : issubclass _ _ = _ |- _ => rewrite H
    | H : can_fall_back _ _ = _ |- _ => rewrite H
    end.

(** The events of one pass that does not return obey the rule, whatever
    follows, provided the run moves on from [(s, a)] after them. *)
Lemma attempt_outcome_rule s a tr c k :
  In s (schemes config) -> 0 <= a <= retries config ->
  attempt_outcome s a tr c ->
  match c with
  | Return r => k = [] /\ final = Some r
  | _ => moves_on s a k
  end ->
  all_suffix rule k -> all_suffix rule (tr ++ k).
Proof.
  intros Hs Hrange Hout Hk Hall.
  inversion Hout; subst tr; subst; cbn [app all_suffix].
  - destruct Hk as [-> Hfin]. split; [|exact I].
    rule_head Hs Hrange hdrs. unfold after_probe. use_flags.
    exists ip, rt. split; auto.
  - split; [|assumption].
    rule_head Hs Hrange hdrs. unfold after_probe. use_flags. assumption.
  - destruct Hk as [-> Hfin]. split; [|split; [|exact I]].
    + rule_head Hs Hrange hdrs. unfold after_probe. use_flags. now eexists _, _.
    + rule_head Hs Hrange hdrs. split; [assumption|].
      unfold after_fallback. use_flags. split; auto.
  - split; [|split; [|assumption]].
    + rule_head Hs Hrange hdrs. unfold after_probe. use_flags. now eexists _, _.
    + rule_head Hs Hrange hdrs. split; [assumption|].
      unfold after_fallback. use_flags. assumption.
  - split; [|split; [|assumption]].
    + rule_head Hs Hrange hdrs. unfold after_probe. use_flags. now eexists _, _.
    + rule_head Hs Hrange hdrs. split; [assumption|]. exact Hk.
  - split; [|assumption].
    rule_head Hs Hrange hdrs. unfold after_probe. use_flags. assumption.
  - split; [|split; [exact I | assumption]].
    rule_head Hs Hrange hdrs. unfold after_probe. use_flags.
    left. split; [assumption|]. eexists. split; [reflexivity|].
    destruct Hk as [[_ Hm]|[Hm _]]; [assumption | lia].
  - split; [|assumption].
    rule_head Hs Hrange hdrs. unfold after_probe. use_flags.
    right. split; [assumption|].
    destruct Hk as [[Hm _]|[_ Hm]]; [lia | assumption].
  - split; [|assumption].
    rule_head Hs Hrange hdrs. unfold after_probe. use_flags. assumption.
Qed.

(** The attempts [i, i + 1, ..., retries] on [s], followed by [k]. *)
Lemma attempts_rule (s : string) :
  In s (schemes config) ->
  forall atts tr res, attempts_trace s atts tr res ->
  forall (i n : nat) (k : list event),
    atts = map Z.of_nat (seq i n) ->
    (i + n)%nat = Z.to_nat (retries config + 1) ->
    match res with
    | Some r => k = [] /\ final = Some r
    | None => next_scheme s k
    end ->
    all_suffix rule k ->
    all_suffix rule (tr ++ k).
Proof.
  intros Hs atts tr res H.
  induction H as [|a rest tr r Hout|a rest tr c tr' res Hout Hc Hrest IH];
    intros i n k Hatts Hlen Hk Hall.
  - assumption.
  - destruct n as [|n']; [discriminate|]. cbn [seq map] in Hatts.
    injection Hatts as Ha _.
    apply (attempt_outcome_rule s a tr (Return r)); auto. lia.
  - destruct n as [|n']; [discriminate|]. cbn [seq map] in Hatts.
    injection Hatts as Ha Hrest_eq.
    specialize (IH (S i) n' k Hrest_eq ltac:(lia) Hk Hall).
    rewrite <- app_assoc.
    apply (attempt_outcome_rule s a tr c); auto; [lia|].
    assert (Hmove : moves_on s a (tr' ++ k)).
    { destruct n' as [|n''].
      - right. split; [lia|]. cbn [seq map] in Hrest_eq. subst rest.
        apply attempts_trace_nil in Hrest. destruct Hrest as [-> ->].
        exact Hk.
      - left. split; [lia|]. cbn [seq map] in Hrest_eq. subst rest.
        replace (a + 1) with (Z.of_nat (S i)) by lia.
        inversion Hrest; subst.
        + eapply attempt_outcome_starts; eassumption.
        + rewrite <- app_assoc. eapply attempt_outcome_starts; eassumption. }
    destruct Hc; subst c; exact Hmove.
Qed.

Lemma attempts_rule_all (s : string) tr res (k : list event) :
  In s (schemes config) ->
  attempts_trace s (range (retries config + 1)) tr res ->
  match res with
  | Some r => k = [] /\ final = Some r
  | None => next_scheme s k
  end ->
  all_suffix rule k ->
  all_suffix rule (tr ++ k).
Proof.
  intros Hs Htr Hk Hall.
  exact (attempts_rule s Hs _ _ _ Htr O (Z.to_nat (retries config + 1)) k
           (range_seq _) eq_refl Hk Hall).
Qed.

Lemma attempts_trace_starts s tr res k :
  attempts_trace s (range (retries config + 1)) tr res ->
  tr <> [] -> starts_with_probe s 0 (tr ++ k).
Proof.
  rewrite range_seq. intros H Hne.
  destruct (Z.to_nat (retries config + 1)) as [|n].
  - apply attempts_trace_nil in H. destruct H. contradiction.
  - cbn [seq map] in H. inversion H; subst.
    + eapply attempt_outcome_starts; eassumption.
    + rewrite <- app_assoc. eapply attempt_outcome_starts; eassumption.
Qed.

Lemma schemes_cases :
  schemes config = ["http://"; "https://"] /\ only_http config = false \/
  schemes config = ["http://"] /\ only_http config = true \/
  schemes config = ["https://"] \/
  schemes config = [].
Proof.
  unfold schemes.
  destruct (only_https config), (only_http config); cbn; auto.
Qed.

Lemma all_suffix_nil_trace tr res :
  schemes_trace [] tr res -> all_suffix rule tr.
Proof. inversion 1; subst. exact I. Qed.

Lemma schemes_trace_single s tr res :
  schemes_trace [s] tr res ->
  attempts_trace s (range (retries config + 1)) tr res.
Proof.
  inversion 1 as [|s0 rest tr1 r H1|s0 rest tr1 tr2 res0 H1 H2]; subst.
  - assumption.
  - inversion H2; subst. now rewrite app_nil_r.
Qed.

Lemma schemes_trace_pair s1 s2 tr res :
  schemes_trace [s1; s2] tr res ->
  (exists r, res = Some r /\
             attempts_trace s1 (range (retries config + 1)) tr (Some r)) \/
  (exists tr1 tr2,
      tr = tr1 ++ tr2 /\
      attempts_trace s1 (range (retries config + 1)) tr1 None /\
      attempts_trace s2 (range (retries config + 1)) tr2 res).
Proof.
  inversion 1 as [|s0 rest tr1 r H1|s0 rest tr1 tr2 res0 H1 H2]; subst.
  - left. eauto.
  - right. apply schemes_trace_single in H2. eauto.
Qed.

Lemma schemes_rule_single s tr :
  In s (schemes config) ->
  ~ (s = "http://" /\ only_http config = false) ->
  schemes_trace [s] tr final -> all_suffix rule tr.
Proof.
  intros Hs Hlast H. apply schemes_trace_single in H.
  rewrite <- (app_nil_r tr).
  apply (attempts_rule_all s tr final [] Hs H); [|exact I].
  destruct final; [split; reflexivity | right; auto].
Qed.

(** Every request of the loop over the schemes obeys the rule. *)
Lemma schemes_rule tr :
  schemes_trace (schemes config) tr final -> all_suffix rule tr.
Proof.
  intros H.
  destruct schemes_cases as [[E Hflag]|[[E Hflag]|[E|E]]].
  - assert (Hin1 : In "http://" (schemes config)) by (rewrite E; cbn; auto).
    assert (Hin2 : In "https://" (schemes config)) by (rewrite E; cbn; auto).
    rewrite E in H.
    destruct (schemes_trace_pair _ _ _ _ H)
      as [(r & Hfin & H1)|(tr1 & tr2 & Htr & H1 & H2)].
    + rewrite <- (app_nil_r tr).
      apply (attempts_rule_all "http://" tr (Some r) [] Hin1 H1); [|exact I].
      split; auto.
    + rewrite Htr. clear H Htr.
      assert (Hall2 : all_suffix rule tr2).
      { rewrite <- (app_nil_r tr2).
        apply (attempts_rule_all "https://" tr2 final [] Hin2 H2); [|exact I].
        destruct final; [split; reflexivity | right].
        split; [|auto]. intros [? _]. discriminate. }
      destruct (range (retries config + 1)) as [|a0 atts] eqn:Hr.
      * (* no attempt at all *)
        apply attempts_trace_nil in H1. destruct H1 as [-> _]. exact Hall2.
      * rewrite <- Hr in H1, H2.
        apply (attempts_rule_all "http://" tr1 None tr2 Hin1 H1); [|exact Hall2].
        left. split; [reflexivity|]. split; [assumption|].
        rewrite <- (app_nil_r tr2).
        apply (attempts_trace_starts "https://" tr2 final []); [assumption|].
        eapply attempts_trace_nonempty; [exact H2|]. rewrite Hr. discriminate.
  - assert (Hin1 : In "http://" (schemes config)) by (rewrite E; cbn; auto).
    rewrite E in H. apply (schemes_rule_single "http://"); auto.
    intros [_ ?]. congruence.
  - assert (Hin1 : In "https://" (schemes config)) by (rewrite E; cbn; auto).
    rewrite E in H. apply (schemes_rule_single "https://"); auto.
    intros [? _]. discriminate.
  - rewrite E in H. apply all_suffix_nil_trace with (1 := H).
Qed.

End Rules.

(** ** The shape of a trace *)

Lemma probes_app tr1 tr2 : probes (tr1 ++ tr2) = (probes tr1 + probes tr2)%nat.
Proof. unfold probes. now rewrite List.filter_app, List.length_app. Qed.

Lemma probes_on_app s tr1 tr2 :
  probes_on s (tr1 ++ tr2) = (probes_on s tr1 + probes_on s tr2)%nat.
Proof. unfold probes_on. now rewrite List.filter_app, List.length_app. Qed.

Lemma gate_calls_app tr1 tr2 :
  gate_calls (tr1 ++ tr2) = (gate_calls tr1 + gate_calls tr2)%nat.
Proof. unfold gate_calls. now rewrite List.filter_app, List.length_app. Qed.

Lemma probes_on_le s tr : (probes_on s tr <= probes tr)%nat.
Proof.
  unfold probes_on, probes.
  induction tr as [|e tr IH]; cbn [List.filter]; [lia|].
  destruct (is_probe e); cbn [andb length].
  - destruct e as [| |site req out]; cbn [length]; try lia.
    destruct (String.eqb (at_scheme site) s); cbn [length]; lia.
  - assumption.
Qed.

Lemma probes_on_other s s' tr :
  s' <> s -> Forall (on_scheme s') tr -> probes_on s tr = O.
Proof.
  intros Hne. unfold probes_on.
  induction 1 as [|e tr He _ IH]; cbn [List.filter]; [reflexivity|].
  destruct e as [| |site req out]; cbn [is_probe andb]; try assumption.
  cbn [on_scheme] in He. rewrite He.
  destruct (String.eqb_spec s' s); [contradiction|].
  now rewrite andb_false_r.
Qed.

Lemma gate_events_calls g : gate_events g -> gate_calls g = 1%nat.
Proof. intros [->|[secs ->]]; reflexivity. Qed.

Lemma gate_events_probes g s : gate_events g -> probes_on s g = O.
Proof. intros [->|[secs ->]]; reflexivity. Qed.

Section Shapes.

Variable P : Platform.
Variable config : ScanConfig.
Variable host : string.

Local Abbreviation attempt_outcome := (attempt_outcome P config host).
Local Abbreviation attempts_trace := (attempts_trace P config host).
Local Abbreviation schemes_trace := (schemes_trace P config host).
Local Abbreviation ends_with_match := (ends_with_match config).

Lemma attempt_outcome_shape s a tr c :
  attempt_outcome s a tr c ->
  Forall (on_scheme s) tr /\ probes tr = 1%nat /\ gate_calls tr = O /\
  (forall r, c = Return r -> ends_with_match tr).
Proof.
  inversion 1; subst; (split; [repeat constructor|]);
    (split; [reflexivity|]); (split; [reflexivity|]);
    intros r0 Hr; try discriminate.
  - exists [], (mkSite s a false). now eexists _, _.
  - eexists [_], (mkSite s a true). now eexists _, _.
Qed.

Lemma attempts_trace_shape s atts tr res :
  attempts_trace s atts tr res ->
  Forall (on_scheme s) tr /\ (probes tr <= length atts)%nat /\
  gate_calls tr = O /\
  (forall r, res = Some r -> ends_with_match tr).
Proof.
  induction 1 as [|a rest tr r Hout|a rest tr c tr' res Hout Hc Hrest IH].
  - repeat split; auto. discriminate.
  - destruct (attempt_outcome_shape _ _ _ _ Hout) as (H1 & H2 & H3 & H4).
    repeat split; auto; cbn [length]; [lia | eauto].
  - destruct (attempt_outcome_shape _ _ _ _ Hout) as (H1 & H2 & H3 & _).
    destruct IH as (I1 & I2 & I3 & I4).
    split; [now apply Forall_app|].
    split; [rewrite probes_app; cbn [length]; lia|].
    split; [rewrite gate_calls_app; lia|].
    intros r Hr. destruct (I4 r Hr) as (pre & site & req & resp & -> & Hp).
    exists (tr ++ pre), site, req, resp. split; [now rewrite app_assoc | assumption].
Qed.

(** The loop over the schemes: the [http] requests, then the [https]
    requests, at most [retries + 1] probe attempts each, none on a scheme
    the configuration leaves out. *)
Lemma schemes_trace_shape tr res :
  schemes_trace (schemes config) tr res ->
  exists t1 t2,
    tr = t1 ++ t2 /\
    Forall (on_scheme "http://") t1 /\ Forall (on_scheme "https://") t2 /\
    (only_https config = true -> t1 = []) /\
    (only_http config = true -> t2 = []) /\
    (probes t1 <= Z.to_nat (retries config + 1))%nat /\
    (probes t2 <= Z.to_nat (retries config + 1))%nat /\
    gate_calls tr = O /\
    (forall r, res = Some r -> ends_with_match tr).
Proof.
  intros H.
  assert (Hone : forall s t r0,
             attempts_trace s (range (retries config + 1)) t r0 ->
             Forall (on_scheme s) t /\
             (probes t <= Z.to_nat (retries config + 1))%nat /\
             gate_calls t = O /\ (forall r, r0 = Some r -> ends_with_match t)).
  { intros s t r0 Ht. apply attempts_trace_shape in Ht.
    now rewrite range_length in Ht. }
  unfold schemes in H.
  destruct (only_https config) eqn:Ehs, (only_http config) eqn:Eh;
    cbn [negb app] in H.
  - inversion H; subst. exists [], []. repeat split; auto; try (cbn; lia).
    discriminate.
  - apply schemes_trace_single in H. destruct (Hone _ _ _ H) as (H1 & H2 & H3 & H4).
    exists [], tr. repeat split; auto; try discriminate. cbn; lia.
  - apply schemes_trace_single in H. destruct (Hone _ _ _ H) as (H1 & H2 & H3 & H4).
    exists tr, []. rewrite app_nil_r. repeat split; auto; try discriminate.
    cbn; lia.
  - destruct (schemes_trace_pair _ _ _ _ _ _ _ H)
      as [(r & -> & H1)|(tr1 & tr2 & -> & H1 & H2)].
    + destruct (Hone _ _ _ H1) as (A1 & A2 & A3 & A4).
      exists tr, []. rewrite app_nil_r. repeat split; auto; try discriminate.
      cbn; lia.
    + destruct (Hone _ _ _ H1) as (A1 & A2 & A3 & _).
      destruct (Hone _ _ _ H2) as (B1 & B2 & B3 & B4).
      exists tr1, tr2. repeat split; auto; try discriminate.
      * rewrite gate_calls_app; lia.
      * intros r Hr. destruct (B4 r Hr) as (pre & site & req & resp & -> & Hp).
        exists (tr1 ++ pre), site, req, resp.
        split; [now rewrite app_assoc | assumption].
Qed.

End Shapes.

(** ** [check_host] *)

Lemma gate_events_rule (R : event -> list event -> Prop) g :
  gate_events g ->
  (forall rest, R EvGate rest) -> (forall secs rest, R (EvSleep secs) rest) ->
  Forall (fun x => forall rest, R x rest) g.
Proof. intros [->|[secs ->]] H1 H2; repeat constructor; auto. Qed.

Lemma timeout_not_ssl e : issubclass e Timeout = true -> issubclass e SSLError = false.
Proof. destruct e; cbn; congruence. Qed.

Section CheckHost.

Variable P : Platform.
Variable config : ScanConfig.
Variable host : string.
Variable st : St P.

Local Abbreviation run := (check_host P config host st).

(** What every run of [check_host] satisfies. *)
Lemma check_host_facts :
  exists final g t1 t2,
    outcome_of run = Ok final /\
    trace_of run = g ++ t1 ++ t2 /\
    gate_events g /\
    Forall (on_scheme "http://") t1 /\ Forall (on_scheme "https://") t2 /\
    (only_https config = true -> t1 = []) /\
    (only_http config = true -> t2 = []) /\
    (probes t1 <= Z.to_nat (retries config + 1))%nat /\
    (probes t2 <= Z.to_nat (retries config + 1))%nat /\
    gate_calls (t1 ++ t2) = O /\
    (forall r, final = Some r -> ends_with_match config (t1 ++ t2)) /\
    all_suffix (rule P config host final) (trace_of run) /\
    Forall (observed P) (t1 ++ t2) /\
    schemes_trace P config host (schemes config) (t1 ++ t2) final.
Proof.
  destruct (check_host_run P config host st)
    as (res & st' & g & tr & Hrun & Hg & Htr & Hobs).
  destruct (schemes_trace_shape P config host tr res Htr)
    as (t1 & t2 & -> & H1 & H2 & H3 & H4 & H5 & H6 & H7 & H8).
  exists res, g, t1, t2. rewrite Hrun. cbn [outcome_of trace_of fst snd].
  repeat (split; [solve [auto]|]).
  split; [|auto].
  apply all_suffix_app_l.
  - apply gate_events_rule; [assumption | |]; intros; exact I.
  - now apply schemes_rule.
Qed.

(** The rule at an event of the run. *)
Lemma check_host_rule_at pre x post :
  trace_of run = pre ++ x :: post ->
  exists final,
    outcome_of run = Ok final /\ rule P config host final x post.
Proof.
  intros Htr.
  destruct check_host_facts as (final & g & t1 & t2 & Hres & _ & Hrest).
  exists final. split; [assumption|].
  apply (all_suffix_at _ pre). rewrite <- Htr. apply Hrest.
Qed.

End CheckHost.

(** ** The rate limiter gate *)

(** C2, as stated, fails: with a rate limit of ten per second and every
    connection refused, one call of [check_host] makes four probe attempts and
    calls the gate once, before the first of them. *)
Lemma gate_per_attempt_counterexample :
  let tr := trace_of (check_host refusing limited_config "example.com"
                        (fresh refusing O)) in
  gated false tr = false /\ gate_calls tr = 1%nat /\ probes tr = 4%nat.
Proof. vm_compute. repeat split. Qed.

(** C2, amended.  [check_host] calls the gate exactly once per host, as its
    first action, whatever the number of probe attempts that follow. *)
Theorem gate_called_once_per_host :
  forall (P : Platform) (config : ScanConfig) (host : string) (st : St P),
    let tr := trace_of (check_host P config host st) in
    gate_calls tr = 1%nat /\
    (exists tr', tr = EvGate :: tr') /\
    gated false tr = match probes tr with O | 1%nat => true | _ => false end.
Proof.
  intros P config host st tr. subst tr.
  destruct (check_host_facts P config host st)
    as (final & g & t1 & t2 & _ & -> & Hg & _ & _ & _ & _ & _ & _ & Hcalls & _).
  split; [|split].
  - rewrite gate_calls_app, (gate_events_calls g Hg), Hcalls. reflexivity.
  - destruct Hg as [->|[secs ->]]; eexists; reflexivity.
  - assert (Hgen : forall tr, gate_calls tr = O ->
               (gated false tr = match probes tr with O => true | _ => false end) /\
               (gated true tr =
                  match probes tr with O | 1%nat => true | _ => false end)).
    { clear. induction tr as [|e tr IH]; [intros _; split; reflexivity|].
      destruct e as [|secs|site req out]; cbn [gated].
      - discriminate.
      - intros H. apply IH in H. exact H.
      - unfold gate_calls, probes. cbn [List.filter is_gate is_probe].
        intros H. apply IH in H. destruct H as [H1 H2].
        destruct (in_handler site); cbn [negb].
        + split; assumption.
        + cbn [length andb]. fold (probes tr). rewrite H1.
          split; [reflexivity|]. destruct (probes tr); reflexivity. }
    destruct (Hgen _ Hcalls) as [_ H2].
    destruct Hg as [->|[secs ->]]; cbn [app gated]; exact H2.
Qed.

(** ** No scheme to try *)

(** C6.  With [only_https] and [only_http] both set, [check_host] makes no
    request at all: it calls the gate, tries no scheme, and returns [None]
    without raising. *)
Theorem no_scheme_no_request :
  forall (P : Platform) (config : ScanConfig) (host : string) (st : St P),
    only_https config = true -> only_http config = true ->
    let run := check_host P config host st in
    outcome_of run = Ok None /\
    gate_events (trace_of run) /\
    probes (trace_of run) = O /\
    Forall (fun e => forall site req out, e <> EvGet site req out) (trace_of run).
Proof.
  intros P config host st Hs Hp run. subst run.
  destruct (check_host_facts P config host st)
    as (final & g & t1 & t2 & Hres & -> & Hg & _ & _ & H1 & H2 & _ & _ & _ & Hm & _).
  rewrite (H1 Hs), (H2 Hp) in *. cbn [app] in *. rewrite app_nil_r.
  assert (Hnone : final = None).
  { destruct final as [r|]; [|reflexivity].
    destruct (Hm r eq_refl) as (pre & site & req & resp & Habs & _).
    destruct pre; discriminate. }
  rewrite Hres, Hnone.
  split; [reflexivity|]. split; [assumption|].
  destruct Hg as [->|[secs ->]]; (split; [reflexivity|]);
    repeat constructor; discriminate.
Qed.

Lemma no_scheme_no_request_witness :
  only_https no_scheme_config = true /\ only_http no_scheme_config = true /\
  outcome_of (check_host refusing no_scheme_config "example.com" (fresh refusing O))
  = Ok None.
Proof.
  split; [reflexivity|]. split; [reflexivity|].
  apply (no_scheme_no_request refusing no_scheme_config "example.com"
           (fresh refusing O)); reflexivity.
Defined.

(** ** Failures stay inside [check_host] *)

(** C8.  [check_host] never raises: whatever each request does (an answer, a
    timeout, an SSL error, a connection error or any other exception), the
    call returns; and when no answer passed the status filter it returns
    [None]. *)
Theorem check_host_never_raises :
  forall (P : Platform) (config : ScanConfig) (host : string) (st : St P),
    let run := check_host P config host st in
    exists final : option ScanResult,
      outcome_of run = Ok final /\
      ((forall site req resp,
           In (EvGet site req (inr resp)) (trace_of run) ->
           passes config resp = false) ->
       final = None).
Proof.
  intros P config host st run. subst run.
  destruct (check_host_facts P config host st)
    as (final & g & t1 & t2 & Hres & Htr & _ & _ & _ & _ & _ & _ & _ & _ & Hm & _).
  exists final. split; [assumption|]. intros Hnone.
  destruct final as [r|]; [|reflexivity].
  destruct (Hm r eq_refl) as (pre & site & req & resp & Hlast & Hpass).
  rewrite (Hnone site req resp) in Hpass; [discriminate|].
  rewrite Htr, Hlast. apply in_or_app. right. apply in_or_app. right. now left.
Qed.

(** ** Connection errors and other errors *)

Lemma starts_with_probe_no_sleep config host s a rest secs rest' :
  starts_with_probe config host s a rest -> rest <> EvSleep secs :: rest'.
Proof. intros (hdrs & out & tr' & ->). discriminate. Qed.

Lemma moves_on_no_sleep config host final s a rest secs rest' :
  moves_on config host final s a rest -> rest <> EvSleep secs :: rest'.
Proof.
  intros [[_ H]|[_ [(_ & _ & H)|(_ & -> & _)]]];
    try (eapply starts_with_probe_no_sleep; eassumption).
  discriminate.
Qed.

(** C3, as stated, fails: with the default [retries = 1] and every connection
    refused, the attempt [0] on [http] is followed by the attempt [1] on
    [http]. *)
Lemma abandons_scheme_counterexample :
  ~ abandons_scheme_on_failure
      (trace_of (check_host refusing default_config "example.com"
                   (fresh refusing O))).
Proof.
  intros H. unfold abandons_scheme_on_failure in H.
  remember (trace_of (check_host refusing default_config "example.com"
                        (fresh refusing O))) as tr eqn:E.
  vm_compute in E. subst tr.
  specialize (H [EvGate] _ _ _ _ eq_refl eq_refl eq_refl eq_refl).
  inversion H as [|x l Hx _]; subst. apply Hx; reflexivity.
Qed.

(** C3, amended.  When a probe attempt fails with a connection error or any
    other error that is neither an SSL error nor a timeout, [check_host] does
    not sleep and goes on with the next attempt on the same scheme while
    attempts remain ([attempt < retries]); after the last attempt it moves to
    the next scheme, or returns [None] when there is none. *)
Theorem failure_moves_on :
  forall (P : Platform) (config : ScanConfig) (host : string) (st : St P)
         pre site req e post,
    let run := check_host P config host st in
    trace_of run = pre ++ EvGet site req (inl e) :: post ->
    in_handler site = false ->
    issubclass e SSLError = false -> issubclass e Timeout = false ->
    exists final,
      outcome_of run = Ok final /\
      moves_on config host final (at_scheme site) (at_attempt site) post /\
      (forall secs post', post <> EvSleep secs :: post').
Proof.
  intros P config host st pre site req e post run Htr Hsite Hssl Hto. subst run.
  destruct (check_host_rule_at P config host st _ _ _ Htr) as (final & Hres & Hrule).
  exists final. split; [assumption|].
  cbn [rule] in Hrule. destruct Hrule as (_ & _ & hdrs & Hrule).
  rewrite Hsite in Hrule. destruct Hrule as [_ Hafter].
  unfold after_probe in Hafter. rewrite Hssl, Hto in Hafter.
  split; [assumption|]. intros secs post'.
  eapply moves_on_no_sleep; eassumption.
Qed.

Lemma failure_moves_on_witness :
  exists final,
    outcome_of (check_host refusing default_config "example.com" (fresh refusing O))
    = Ok final /\
    moves_on default_config "example.com" final "http://" 0
      (skipn 2 (trace_of (check_host refusing default_config "example.com"
                            (fresh refusing O)))).
Proof.
  destruct (failure_moves_on refusing default_config "example.com"
              (fresh refusing O) [EvGate] (mkSite "http://" 0 false)
              (request default_config "http://example.com"
                 (∅ ∪ {[ "User-Agent" := nth 0 user_agent_pool "" ]}) true)
              ConnectionError
              (skipn 2 (trace_of (check_host refusing default_config "example.com"
                                    (fresh refusing O)))))
    as (final & H1 & H2 & _);
    [vm_compute; reflexivity | reflexivity | reflexivity | reflexivity |].
  exists final. split; assumption.
Defined.

(** ** Timeouts *)

Lemma probes_on_run_bound P config host (st : St P) s :
  (probes_on s (trace_of (check_host P config host st))
   <= Z.to_nat (retries config + 1))%nat.
Proof.
  destruct (check_host_facts P config host st)
    as (final & g & t1 & t2 & _ & -> & Hg & H1 & H2 & _ & _ & B1 & B2 & _).
  rewrite !probes_on_app, (gate_events_probes g s Hg).
  pose proof (probes_on_le s t1). pose proof (probes_on_le s t2).
  destruct (String.eqb_spec "http://" s) as [<-|Hne].
  - rewrite (probes_on_other "http://" "https://" t2); [lia | discriminate | exact H2].
  - rewrite (probes_on_other s "http://" t1); [lia | exact Hne | exact H1].
Qed.

(** C4.  When a probe attempt [(scheme, attempt)] times out and
    [attempt < retries], [check_host] sleeps [0.5 * (attempt + 1)] seconds and
    then makes the attempt [attempt + 1] on the same scheme; when
    [attempt = retries] it moves to the next scheme (or returns [None] after
    the last one) without sleeping.  Attempts are numbered [0 .. retries], and a
    scheme gets at most [retries + 1] of them. *)
Theorem timeout_backs_off_and_retries :
  forall (P : Platform) (config : ScanConfig) (host : string) (st : St P)
         pre site req e post,
    let run := check_host P config host st in
    let s := at_scheme site in
    let a := at_attempt site in
    trace_of run = pre ++ EvGet site req (inl e) :: post ->
    in_handler site = false ->
    issubclass e Timeout = true ->
    (a < retries config ->
     exists post',
       post = EvSleep (backoff a) :: post' /\
       backoff a = ((1 # 2) * inject_Z (a + 1))%Q /\
       starts_with_probe config host s (a + 1) post') /\
    (retries config <= a ->
     exists final,
       outcome_of run = Ok final /\ next_scheme config host final s post) /\
    0 <= a <= retries config /\
    (forall s', Z.of_nat (probes_on s' (trace_of run)) <= retries config + 1).
Proof.
  intros P config host st pre site req e post run s a Htr Hsite Hto.
  subst run s a.
  destruct (check_host_rule_at P config host st _ _ _ Htr) as (final & Hres & Hrule).
  cbn [rule] in Hrule. destruct Hrule as (_ & Hrange & hdrs & Hrule).
  rewrite Hsite in Hrule. destruct Hrule as [_ Hafter].
  unfold after_probe in Hafter.
  rewrite (timeout_not_ssl e Hto), Hto in Hafter.
  split; [|split; [|split]].
  - intros Hlt. destruct Hafter as [(_ & post' & -> & Hnext)|[Hge _]]; [|lia].
    exists post'. auto.
  - intros Hge. destruct Hafter as [[Hlt _]|[_ Hnext]]; [lia|].
    exists final. auto.
  - assumption.
  - intros s'. pose proof (probes_on_run_bound P config host st s'). lia.
Qed.

Lemma timeout_backs_off_and_retries_witness :
  exists post',
    skipn 2 (trace_of (check_host stalling default_config "example.com"
                         (fresh stalling O)))
    = EvSleep (backoff 0) :: post' /\
    backoff 0 = ((1 # 2) * inject_Z (0 + 1))%Q /\
    starts_with_probe default_config "example.com" "http://" (0 + 1) post'.
Proof.
  apply (timeout_backs_off_and_retries stalling default_config "example.com"
           (fresh stalling O) [EvGate] (mkSite "http://" 0 false)
           (request default_config "http://example.com"
              (∅ ∪ {[ "User-Agent" := nth 0 user_agent_pool "" ]}) true)
           ReadTimeout
           (skipn 2 (trace_of (check_host stalling default_config "example.com"
                                 (fresh stalling O)))));
    [vm_compute; reflexivity | reflexivity | reflexivity | reflexivity].
Defined.

(** With [retries = 2], two timeouts and then an answer: three attempts on
    [http], sleeps of [0.5] and [1.0] seconds, and a result. *)
Example two_timeouts_then_live :
  let run := check_host (flaky 2) (test_config None 2 [] false false)
               "example.com" (fresh (flaky 2) O) in
  option_map scheme (returned run) = Some "http" /\
  sleeps (trace_of run) = [backoff 0; backoff 1] /\
  (backoff 0 + backoff 1 == 3 # 2)%Q /\
  probes_on "http://" (trace_of run) = 3%nat /\
  probes_on "https://" (trace_of run) = O.
Proof. vm_compute. repeat split. Qed.

(** ** The SSL fallback *)



(** ** Scheme order and the first match *)

Lemma rule_request_url P config host final site req out rest :
  rule P config host final (EvGet site req out) rest ->
  req_url req = String.append (at_scheme site) host.
Proof.
  cbn [rule]. intros (_ & _ & hdrs & H).
  destruct (in_handler site); destruct H as [H _]; injection H as _ ->; reflexivity.
Qed.

(** A request answered with a status that passes the filter ends the run,
    which returns a result with that status and the scheme of the request. *)
Lemma rule_match_returns P config hostname final site req resp rest :
  rule P config hostname final (EvGet site req (inr resp)) rest ->
  passes config resp = true ->
  rest = [] /\
  exists r, final = Some r /\ status r = status_code resp /\
            scheme r = replace "://" "" (at_scheme site) /\
            host r = hostname.
Proof.
  cbn [rule]. intros (_ & _ & hdrs & H) Hp.
  destruct (in_handler site); cbv beta iota in H.
  - destruct H as [_ [Hfb Hafter]]. unfold after_fallback in Hafter.
    rewrite Hp in Hafter. destruct Hafter as [-> ->].
    split; [reflexivity|]. eexists. split; [reflexivity|].
    unfold can_fall_back in Hfb. apply andb_prop in Hfb. destruct Hfb as [_ Hs].
    apply String.eqb_eq in Hs. rewrite Hs. repeat split.
  - destruct H as (_ & Hafter). unfold after_probe in Hafter.
    rewrite Hp in Hafter. destruct Hafter as (ip & rt & -> & ->).
    split; [reflexivity|]. eexists. split; [reflexivity|]. repeat split.
Qed.

(** A loop over the attempts that ends without a result made every one of
    them. *)
Lemma attempts_trace_exhausted P config host s atts tr :
  attempts_trace P config host s atts tr None -> probes tr = length atts.
Proof.
  intros H. remember (@None ScanResult) as res eqn:Hres.
  induction H as [|a rest tr r Hout|a rest tr c tr' res Hout Hc Hrest IH];
    [reflexivity | discriminate |].
  destruct (attempt_outcome_shape _ _ _ _ _ _ _ Hout) as (_ & Hp & _).
  rewrite probes_app, Hp, (IH Hres). reflexivity.
Qed.

(** The two phases of the loop over the schemes: the attempts on [http],
    which come first unless [only_https] is set, then those on [https], which
    are made when [http] gave no result. *)
Lemma schemes_trace_phases P config host tr res :
  schemes_trace P config host (schemes config) tr res ->
  exists t1 t2,
    tr = t1 ++ t2 /\
    Forall (on_scheme "http://") t1 /\ Forall (on_scheme "https://") t2 /\
    (only_https config = true -> t1 = []) /\
    (only_http config = true -> t2 = []) /\
    (only_https config = false -> 0 <= retries config ->
     starts_with_probe config host "http://" 0 t1) /\
    (only_http config = false -> 0 <= retries config ->
     ends_with_match config t1 \/ starts_with_probe config host "https://" 0 t2) /\
    (only_https config = false -> t2 <> [] ->
     probes t1 = Z.to_nat (retries config + 1)).
Proof.
  intros H.
  assert (Hstart : forall s t r0,
             0 <= retries config ->
             attempts_trace P config host s (range (retries config + 1)) t r0 ->
             starts_with_probe config host s 0 t).
  { intros s t r0 Hr Ht. rewrite <- (app_nil_r t).
    apply (attempts_trace_starts P config host s t r0 []); [exact Ht|].
    eapply attempts_trace_nonempty; [exact Ht|].
    rewrite range_seq.
    replace (Z.to_nat (retries config + 1)) with (S (Z.to_nat (retries config)))
      by lia.
    discriminate. }
  assert (Hon : forall s t r0,
             attempts_trace P config host s (range (retries config + 1)) t r0 ->
             Forall (on_scheme s) t).
  { intros s t r0 Ht. now apply attempts_trace_shape in Ht. }
  unfold schemes in H.
  destruct (only_https config) eqn:Ehs, (only_http config) eqn:Eh;
    cbn [negb app] in H.
  - inversion H; subst. exists [], [].
    repeat (split; [solve [auto | intros; discriminate]|]). intros; discriminate.
  - apply schemes_trace_single in H. exists [], tr.
    split; [reflexivity|]. split; [constructor|]. split; [eapply Hon; exact H|].
    split; [reflexivity|]. split; [discriminate|]. split; [discriminate|].
    split; [|discriminate]. intros _ Hr. right. eapply Hstart; eassumption.
  - apply schemes_trace_single in H. exists tr, [].
    split; [now rewrite app_nil_r|]. split; [eapply Hon; exact H|].
    split; [constructor|]. split; [discriminate|]. split; [reflexivity|].
    split; [intros _ Hr; eapply Hstart; eassumption|].
    split; [discriminate|]. intros _ Hne. congruence.
  - destruct (schemes_trace_pair _ _ _ _ _ _ _ H)
      as [(r & Hres & H1)|(tr1 & tr2 & Htr & H1 & H2)].
    + exists tr, [].
      split; [now rewrite app_nil_r|]. split; [eapply Hon; exact H1|].
      split; [constructor|]. split; [discriminate|]. split; [discriminate|].
      split; [intros _ Hr; eapply Hstart; eassumption|].
      split; [|intros _ Hne; congruence].
      intros _ _. left.
      destruct (attempts_trace_shape _ _ _ _ _ _ _ H1) as (_ & _ & _ & Hend).
      exact (Hend r eq_refl).
    + exists tr1, tr2.
      split; [exact Htr|]. split; [eapply Hon; exact H1|].
      split; [eapply Hon; exact H2|]. split; [discriminate|]. split; [discriminate|].
      split; [intros _ Hr; eapply Hstart; eassumption|].
      split; [intros _ Hr; right; eapply Hstart; eassumption|].
      intros _ _. rewrite (attempts_trace_exhausted _ _ _ _ _ _ H1).
      apply range_length.
Qed.

(** C5.  [check_host] makes its [http] requests before its [https] requests,
    none on [http] under [only_https] and none on [https] under [only_http];
    the first answer whose status passes the filter ends the run, which
    returns the result built from it, and a result is only ever returned
    that way.  So when [http] fails and [https] answers with a passing
    status, the result is the [https] one.  Unless [only_https] is set the
    first request of the run is the attempt [0] on [http]; unless [only_http]
    is set, the attempt [0] on [https] follows the [http] requests when none
    of them was answered with a passing status; and [https] is only tried
    after all the [retries + 1] attempts on [http] were made. *)
Theorem schemes_in_order_first_match_wins :
  forall (P : Platform) (config : ScanConfig) (hostname : string) (st : St P),
    let run := check_host P config hostname st in
    exists final g t1 t2,
      outcome_of run = Ok final /\
      trace_of run = g ++ t1 ++ t2 /\
      gate_events g /\
      Forall (on_scheme "http://") t1 /\ Forall (on_scheme "https://") t2 /\
      (only_https config = true -> t1 = []) /\
      (only_http config = true -> t2 = []) /\
      (forall pre site req resp post,
          trace_of run = pre ++ EvGet site req (inr resp) :: post ->
          passes config resp = true ->
          post = [] /\
          exists r, final = Some r /\ status r = status_code resp /\
                    scheme r = replace "://" "" (at_scheme site) /\
                    host r = hostname) /\
      (forall r, final = Some r -> ends_with_match config (t1 ++ t2)) /\
      (only_http config = false -> 0 <= retries config ->
       (forall req w, req_url req = String.append "http://" hostname ->
                      exists e, fst (net_get P req w) = inl e) ->
       (forall req w, req_url req = String.append "https://" hostname ->
                      exists resp, fst (net_get P req w) = inr resp /\
                                   passes config resp = true) ->
       exists r, final = Some r /\ scheme r = "https") /\
      (only_https config = false -> 0 <= retries config ->
       starts_with_probe config hostname "http://" 0 t1) /\
      (only_http config = false -> 0 <= retries config ->
       ends_with_match config t1 \/
       starts_with_probe config hostname "https://" 0 t2) /\
      (only_https config = false -> t2 <> [] ->
       probes t1 = Z.to_nat (retries config + 1)).
Proof.
  intros P config hostname st run. subst run.
  destruct (check_host_run P config hostname st)
    as (final & st' & g & tr & Hrun & Hg & Hsch & Hobs).
  destruct (schemes_trace_phases P config hostname tr final Hsch)
    as (t1 & t2 & Heq & H1 & H2 & H3 & H4 & N1 & N2 & N3).
  destruct (schemes_trace_shape P config hostname tr final Hsch)
    as (t1' & t2' & _ & _ & _ & _ & _ & _ & _ & _ & Hm).
  assert (Hrule : all_suffix (rule P config hostname final)
                    (trace_of (check_host P config hostname st))).
  { rewrite Hrun. cbn [trace_of snd]. apply all_suffix_app_l.
    - apply gate_events_rule; [assumption | |]; intros; exact I.
    - now apply schemes_rule. }
  assert (Hres : outcome_of (check_host P config hostname st) = Ok final)
    by now rewrite Hrun.
  assert (Htr : trace_of (check_host P config hostname st) = g ++ t1 ++ t2)
    by now rewrite Hrun, Heq.
  clear Hrun. subst tr. clear t1' t2'.
  exists final, g, t1, t2.
  repeat (split; [assumption|]).
  split; [|split; [assumption|]].
  { intros pre site req resp post Hat Hp.
    rewrite Hat in Hrule. apply all_suffix_at in Hrule.
    eapply rule_match_returns; eassumption. }
  split; [|split; [exact N1|split; [exact N2|exact N3]]].
  intros Hhttp Hretries Hfail Hlive.
  (* the attempts on [https], reached with no result so far *)
  assert (Hhttps : forall tr1 tr2,
             t1 ++ t2 = tr1 ++ tr2 ->
             attempts_trace P config hostname "https://" (range (retries config + 1))
               tr2 final ->
             exists r, final = Some r /\ scheme r = "https").
  { intros tr1 tr2 Heq Hatt.
    assert (Hne : tr2 <> []).
    { eapply attempts_trace_nonempty; [exact Hatt|].
      rewrite range_seq. replace (Z.to_nat (retries config + 1))
        with (S (Z.to_nat (retries config))) by lia. discriminate. }
    destruct (attempts_trace_starts P config hostname "https://" tr2 final [] Hatt Hne)
      as (hdrs & out & tr' & Hstart).
    rewrite app_nil_r in Hstart. subst tr2.
    rewrite Heq in Hobs. apply Forall_app in Hobs. destruct Hobs as [_ Hobs].
    inversion Hobs as [|x l Hw _]; subst.
    cbn [observed probe] in Hw. destruct Hw as [w Hw].
    destruct (Hlive (request config (String.append "https://" hostname) hdrs
                       (verify_ssl config)) w eq_refl) as (resp & Hresp & Hp).
    rewrite Hresp in Hw. subst out.
    rewrite Htr, Heq, app_assoc in Hrule. apply all_suffix_at in Hrule.
    destruct (rule_match_returns _ _ _ _ _ _ _ _ Hrule Hp)
      as (_ & r & Hr & _ & Hscheme & _).
    exists r. split; [assumption|]. rewrite Hscheme. reflexivity. }
  unfold schemes in Hsch. rewrite Hhttp in Hsch.
  destruct (only_https config) eqn:Ehs; cbn [negb app] in Hsch.
  - apply schemes_trace_single in Hsch. apply (Hhttps [] (t1 ++ t2)); auto.
  - destruct (schemes_trace_pair _ _ _ _ _ _ _ Hsch)
      as [(r & Hfin & Hatt)|(tr1 & tr2 & Heq & _ & Hatt)].
    + (* a result from [http] needs an answer on [http] *)
      exfalso.
      destruct (attempts_trace_shape _ _ _ _ _ _ _ Hatt) as (Hon & _ & _ & Hend).
      destruct (Hend r eq_refl) as (pre & site & req & resp & Hlast & Hp).
      rewrite Hlast in Hon, Hobs, Htr.
      apply Forall_app in Hon. destruct Hon as [_ Hon].
      apply Forall_app in Hobs. destruct Hobs as [_ Hobs].
      inversion Hon as [|x l Hs _]; subst. cbn [on_scheme] in Hs.
      inversion Hobs as [|x l Hw _]; subst.
      cbn [observed] in Hw. destruct Hw as [w Hw].
      rewrite Htr, app_assoc in Hrule. apply all_suffix_at in Hrule.
      apply rule_request_url in Hrule. rewrite Hs in Hrule.
      destruct (Hfail req w Hrule) as (e & He). congruence.
    + apply (Hhttps tr1 tr2); assumption.
Qed.

(** [http] refused on both attempts, [https] answered at once. *)
Example https_after_http_refused :
  let run := check_host https_only default_config "example.com"
               (fresh https_only O) in
  option_map scheme (returned run) = Some "https" /\
  option_map url (returned run) = Some "https://example.com" /\
  probes_on "http://" (trace_of run) = 2%nat /\
  probes_on "https://" (trace_of run) = 1%nat.
Proof. vm_compute. repeat split. Qed.

(** ** The user agents *)

(** The index of the round robin stays inside the list of user agents. *)
Lemma user_agent_index_in_range (P : Platform) (config : ScanConfig) :
  (forall w : World P,
      (current_user_agent (fst (init P w)) < length (user_agents (fst (init P w))))%nat) /\
  (forall st : St P,
      (current_user_agent (fst st) < length (user_agents (fst st)))%nat ->
      forall r st' tr,
        _get_next_user_agent P config st = (r, st', tr) ->
        user_agents (fst st') = user_agents (fst st) /\
        (current_user_agent (fst st') < length (user_agents (fst st')))%nat /\
        (custom_user_agent config = None -> random_user_agent config = false ->
         r = Ok (nth (current_user_agent (fst st)) (user_agents (fst st)) "") /\
         nth_error (user_agents (fst st)) (current_user_agent (fst st)) <> None)).
Proof.
  split.
  - intros w. unfold init.
    destruct (clock P w) as [t w1].
    destruct (pick P (length user_agent_pool) w1) as [i w2]. cbn. lia.
  - intros st Hlt r st' tr. unfold _get_next_user_agent.
    assert (Hrandom : forall run : result string * St P * list event,
               get_random_user_agent P st = run ->
               user_agents (fst (snd (fst run))) = user_agents (fst st) /\
               current_user_agent (fst (snd (fst run))) = current_user_agent (fst st)).
    { intros run <-. unfold get_random_user_agent.
      destruct (pick P _ (snd st)) as [i w]. split; reflexivity. }
    destruct (custom_user_agent config) as [ua|] eqn:Hc.
    + destruct (truthy_str ua).
      * intros [= <- <- <-]. repeat split; auto; discriminate.
      * destruct (random_user_agent config) eqn:Hr.
        -- intros Hrun. destruct (Hrandom _ Hrun) as [H1 H2]. cbn in H1, H2.
           rewrite H1, H2. repeat split; auto; discriminate.
        -- intros [= <- <- <-]. cbn. split; [reflexivity|]. split; [|discriminate].
           apply Nat.mod_upper_bound. lia.
    + destruct (random_user_agent config) eqn:Hr.
      * intros Hrun. destruct (Hrandom _ Hrun) as [H1 H2]. cbn in H1, H2.
        rewrite H1, H2. repeat split; auto; discriminate.
      * intros [= <- <- <-]. cbn. split; [reflexivity|].
        split; [apply Nat.mod_upper_bound; lia|].
        intros _ _. split; [reflexivity|].
        apply nth_error_Some. assumption.
Qed.

(** ** Aggregation *)

Lemma dist_total_bump `{Countable K} (k : K) (d : gmap K Z) :
  dist_total (bump k d) = dist_total d + 1.
Proof.
  unfold dist_total, bump.
  destruct (d !! k) as [n|] eqn:Hk; cbn [default].
  - rewrite (map_fold_delete_L _ _ k n d); [|intros; lia | assumption].
    rewrite <- (insert_delete_eq d k (n + 1)).
    rewrite map_fold_insert_L; [lia | intros; lia | apply lookup_delete_eq].
  - rewrite map_fold_insert_L; [lia | intros; lia | assumption].
Qed.

Lemma record_result_aggregated self result :
  aggregated self -> aggregated (record_result self result).
Proof.
  intros [H1 H2]. destruct result as [r|]; [|split; assumption].
  unfold aggregated. cbn [record_result results stats total_found status_distribution].
  rewrite length_app, dist_total_bump. cbn [length]. split; lia.
Qed.

Lemma fold_record_aggregated completed : forall self,
  aggregated self -> aggregated (fold_left record_result completed self).
Proof.
  induction completed as [|r completed IH]; intros self H; cbn [fold_left]; auto.
  apply IH, record_result_aggregated, H.
Qed.

Lemma ascii_compare_lt_trans a b c :
  Ascii.compare a b = Lt -> Ascii.compare b c = Lt -> Ascii.compare a c = Lt.
Proof.
  unfold Ascii.compare. rewrite !N.compare_lt_iff. lia.
Qed.

Lemma ascii_compare_eq a b : Ascii.compare a b = Eq -> a = b.
Proof. apply Ascii.compare_eq_iff. Qed.

Lemma string_compare_lt_trans : forall s1 s2 s3,
  String.compare s1 s2 = Lt -> String.compare s2 s3 = Lt -> String.compare s1 s3 = Lt.
Proof.
  induction s1 as [|c1 s1 IH]; intros [|c2 s2] [|c3 s3]; cbn [String.compare];
    try congruence.
  destruct (Ascii.compare c1 c2) eqn:E12; try discriminate;
  destruct (Ascii.compare c2 c3) eqn:E23; try discriminate; intros H1 H2.
  - apply ascii_compare_eq in E12, E23. subst.
    assert (Ascii.compare c3 c3 = Eq) as -> by (unfold Ascii.compare; apply N.compare_refl).
    eauto.
  - apply ascii_compare_eq in E12. subst. now rewrite E23.
  - apply ascii_compare_eq in E23. subst. now rewrite E12.
  - now rewrite (ascii_compare_lt_trans _ _ _ E12 E23).
Qed.

Lemma string_ltb_irrefl s : String.ltb s s = false.
Proof.
  unfold String.ltb.
  assert (String.compare s s = Eq) as ->; [|reflexivity].
  induction s as [|c s IH]; cbn [String.compare]; [reflexivity|].
  assert (Ascii.compare c c = Eq) as -> by (unfold Ascii.compare; apply N.compare_refl).
  assumption.
Qed.

Lemma string_ltb_trans s1 s2 s3 :
  String.ltb s1 s2 = true -> String.ltb s2 s3 = true -> String.ltb s1 s3 = true.
Proof.
  unfold String.ltb.
  destruct (String.compare s1 s2) eqn:E1; try discriminate.
  destruct (String.compare s2 s3) eqn:E2; try discriminate.
  now rewrite (string_compare_lt_trans _ _ _ E1 E2).
Qed.

Lemma string_ltb_total s1 s2 :
  String.ltb s1 s2 = false -> String.ltb s2 s1 = false -> s1 = s2.
Proof.
  unfold String.ltb. rewrite (String.compare_antisym s2 s1).
  destruct (String.compare s1 s2) eqn:E; cbn; try discriminate.
  intros _ _. now apply String.compare_eq_iff.
Qed.

Lemma key_lt_irrefl k : key_lt k k = false.
Proof. unfold key_lt. rewrite Z.eqb_refl. apply string_ltb_irrefl. Qed.

Lemma key_lt_trans k1 k2 k3 :
  key_lt k1 k2 = true -> key_lt k2 k3 = true -> key_lt k1 k3 = true.
Proof.
  unfold key_lt.
  destruct (Z.eqb_spec (fst k1) (fst k2)), (Z.eqb_spec (fst k2) (fst k3)),
    (Z.eqb_spec (fst k1) (fst k3)); rewrite ?Z.ltb_lt; try lia.
  apply string_ltb_trans.
Qed.

Lemma key_lt_total k1 k2 :
  key_lt k1 k2 = false -> key_lt k2 k1 = false -> k1 = k2.
Proof.
  unfold key_lt. destruct k1 as [n1 s1], k2 as [n2 s2]. cbn [fst snd].
  rewrite (Z.eqb_sym n2 n1).
  destruct (Z.eqb_spec n1 n2); rewrite ?Z.ltb_ge; [|lia].
  intros. f_equal; [assumption | now apply string_ltb_total].
Qed.

Lemma key_lt_asym k1 k2 : key_lt k1 k2 = true -> key_lt k2 k1 = false.
Proof.
  intros H. destruct (key_lt k2 k1) eqn:E; [|reflexivity].
  pose proof (key_lt_trans _ _ _ H E) as Habs.
  now rewrite key_lt_irrefl in Habs.
Qed.

#[local] Instance key_le_trans : Transitive key_le.
Proof.
  intros k1 k2 k3. unfold key_le. intros H12 H23.
  destruct (key_lt k3 k1) eqn:E; [|reflexivity].
  destruct (key_lt k2 k1) eqn:E21; [discriminate|].
  destruct (key_lt k1 k2) eqn:E12.
  - pose proof (key_lt_trans _ _ _ E E12). congruence.
  - pose proof (key_lt_total _ _ E12 E21). subst. congruence.
Qed.

#[local] Instance key_le_antisym : AntiSymm (=) key_le.
Proof. intros k1 k2 H12 H21. now apply key_lt_total. Qed.

Section Sort.
Context {A : Type} (key : A -> Z * string).

Lemma insort_perm x l : Permutation (insort key x l) (x :: l).
Proof.
  induction l as [|y l IH]; cbn [insort]; [reflexivity|].
  destruct (key_lt (key y) (key x)); [|reflexivity].
  rewrite IH. apply perm_swap.
Qed.

Lemma list_sort_perm l : Permutation (list_sort key l) l.
Proof.
  induction l as [|x l IH]; cbn [list_sort fold_right]; [reflexivity|].
  fold (list_sort key l). rewrite insort_perm. now constructor.
Qed.

Lemma insort_hd x y l :
  (le_by key) y x -> HdRel (le_by key) y l -> HdRel (le_by key) y (insort key x l).
Proof.
  intros Hyx Hl. destruct l as [|z l]; cbn [insort]; [now constructor|].
  destruct (key_lt (key z) (key x)); constructor; auto.
  now inversion Hl.
Qed.

Lemma insort_sorted x l : Sorted (le_by key) l -> Sorted (le_by key) (insort key x l).
Proof.
  induction 1 as [|y l Hs IH Hhd]; cbn [insort]; [repeat constructor|].
  destruct (key_lt (key y) (key x)) eqn:E.
  - constructor; [assumption|]. apply insort_hd; [|assumption].
    unfold le_by, key_le. now apply key_lt_asym.
  - constructor; [now constructor|]. constructor. exact E.
Qed.

Lemma list_sort_sorted l : Sorted (le_by key) (list_sort key l).
Proof.
  induction l as [|x l IH]; cbn [list_sort fold_right]; [constructor|].
  now apply insort_sorted.
Qed.

Lemma map_insort x l :
  map key (insort key x l) = insort id (key x) (map key l).
Proof.
  induction l as [|y l IH]; cbn [insort map]; [reflexivity|].
  unfold id at 1 2. destruct (key_lt (key y) (key x)); cbn [map]; congruence.
Qed.

Lemma map_list_sort l : map key (list_sort key l) = list_sort id (map key l).
Proof.
  induction l as [|x l IH]; cbn [list_sort fold_right map]; [reflexivity|].
  fold (list_sort key l). fold (list_sort id (map key l)).
  now rewrite map_insort, IH.
Qed.
End Sort.

Lemma sorted_keys_unique (l1 l2 : list (Z * string)) :
  Permutation l1 l2 -> list_sort id l1 = list_sort id l2.
Proof.
  intros Hp. apply (Sorted_unique key_le).
  - apply (list_sort_sorted id).
  - apply (list_sort_sorted id).
  - rewrite !list_sort_perm. exact Hp.
Qed.

Lemma perm_same_keys {A} (key : A -> Z * string) : forall l1 l2 : list A,
  Permutation l1 l2 -> map key l1 = map key l2 -> List.NoDup (map key l1) -> l1 = l2.
Proof.
  induction l1 as [|x l1 IH]; intros [|y l2] Hp Hk Hnd; try discriminate; auto.
  cbn [map] in Hk, Hnd. injection Hk as Hxy Hk.
  apply List.NoDup_cons_iff in Hnd. destruct Hnd as [Hnin Hnd].
  assert (x = y).
  { assert (Hin : In x (y :: l2)) by (eapply Permutation_in; [exact Hp | now left]).
    destruct Hin as [->|Hin]; [reflexivity|].
    exfalso. apply Hnin. rewrite Hk, Hxy. apply in_map_iff.
    exists x. split; [congruence | assumption]. }
  subst y. f_equal. apply IH; auto. eapply Permutation_cons_inv; eassumption.
Qed.

Lemma fold_record_results completed : forall self,
  results (fold_left record_result completed self) = results self ++ found completed.
Proof.
  unfold found.
  induction completed as [|r completed IH]; intros self; cbn [fold_left].
  - cbn. now rewrite app_nil_r.
  - rewrite IH. destruct r as [r|]; cbn [record_result results]; [|reflexivity].
    rewrite <- app_assoc. reflexivity.
Qed.

Lemma run_checks_results self hosts completed now :
  results (run_checks self hosts completed now) =
  list_sort sort_key (results self ++ found completed).
Proof.
  unfold run_checks. cbn [results]. now rewrite fold_record_results.
Qed.

Lemma init_aggregated (P : Platform) (w : World P) : aggregated (fst (init P w)).
Proof.
  unfold init. cbn [fst snd].
  destruct (clock P w) as [t w1].
  destruct (pick P (length user_agent_pool) w1) as [i w2].
  split; reflexivity.
Qed.

(** ** The order of the results *)

(** C7, as stated, fails: two hosts that redirect to the same URL give two
    results with the same key [(status, url)], and the list returned keeps
    them in the order in which they were recorded. *)
Lemma completion_order_counterexample :
  ~ order_independent (fst (fresh refusing O))
      ["example.com"; "www.example.com"] 0%Q.
Proof.
  intros H.
  specialize (H [Some (live "example.com" 200 "https://www.example.com/");
                 Some (live "www.example.com" 200 "https://www.example.com/")]
                [Some (live "www.example.com" 200 "https://www.example.com/");
                 Some (live "example.com" 200 "https://www.example.com/")]
                (perm_swap _ _ _)).
  vm_compute in H. discriminate H.
Qed.

(** The sort is stable: it leaves the elements of any one key in the order
    they had. *)
Lemma insort_same_key {A} (key : A -> Z * string) (k : Z * string) x l :
  List.filter (fun y => bool_decide (key y = k)) (insort key x l) =
  List.filter (fun y => bool_decide (key y = k)) (x :: l).
Proof.
  induction l as [|y l IH]; cbn [insort]; [reflexivity|].
  destruct (key_lt (key y) (key x)) eqn:E; [|reflexivity].
  cbn [List.filter] in *. rewrite IH.
  destruct (bool_decide_reflect (key y = k)) as [Hy|Hy]; [|reflexivity].
  destruct (bool_decide_reflect (key x = k)) as [Hx|Hx]; [|reflexivity].
  rewrite Hy, Hx, key_lt_irrefl in E. discriminate.
Qed.

Lemma list_sort_same_key {A} (key : A -> Z * string) (k : Z * string) l :
  List.filter (fun y => bool_decide (key y = k)) (list_sort key l) =
  List.filter (fun y => bool_decide (key y = k)) l.
Proof.
  induction l as [|x l IH]; cbn [list_sort fold_right]; [reflexivity|].
  fold (list_sort key l). rewrite insort_same_key. cbn [List.filter].
  now rewrite IH.
Qed.

(** C7, amended.  The list [run_checks] returns holds the results recorded,
    sorted ascending by the key [(status, url)]; the sequence of its keys does
    not depend on the order in which the results were recorded, and neither
    does the list itself when no two results have the same key.  Results of
    equal key stay in the order in which they were recorded: for every key,
    the results with that key come out in the same sequence as they went
    in. *)
Theorem results_sorted_by_status_url :
  forall (self : Checker) (hosts : list string)
         (completed : list (option ScanResult)) (now : Q),
    let out := results (run_checks self hosts completed now) in
    StronglySorted (le_by sort_key) out /\
    Permutation out (results self ++ found completed) /\
    (forall completed',
        Permutation completed completed' ->
        let out' := results (run_checks self hosts completed' now) in
        map sort_key out' = map sort_key out /\
        (List.NoDup (map sort_key (results self ++ found completed)) ->
         out' = out)) /\
    (forall k : Z * string,
        List.filter (fun r => bool_decide (sort_key r = k)) out =
        List.filter (fun r => bool_decide (sort_key r = k))
          (results self ++ found completed)).
Proof.
  intros self hosts completed now out. subst out.
  rewrite run_checks_results.
  split; [|split; [|split]].
  - apply Sorted_StronglySorted.
    + intros x y z. unfold le_by. apply key_le_trans.
    + apply list_sort_sorted.
  - apply list_sort_perm.
  - intros completed' Hp out'. subst out'. rewrite run_checks_results.
    assert (Hperm : Permutation (results self ++ found completed')
                      (results self ++ found completed)).
    { apply Permutation_app_head. unfold found. now rewrite Hp. }
    assert (Hkeys : map sort_key (list_sort sort_key (results self ++ found completed'))
                    = map sort_key (list_sort sort_key (results self ++ found completed))).
    { rewrite !map_list_sort. apply sorted_keys_unique.
      now apply Permutation_map. }
    split; [exact Hkeys|]. intros Hnd.
    apply (perm_same_keys sort_key); [| exact Hkeys |].
    + rewrite !list_sort_perm. exact Hperm.
    + eapply Permutation_NoDup; [|exact Hnd].
      apply Permutation_map. symmetry.
      rewrite list_sort_perm. exact Hperm.
  - intros k. apply list_sort_same_key.
Qed.

(** Results for A (404), B (200), C (200, "a.com"), D (200, "z.com") and a host
    that is not live, recorded out of order. *)
Example status_then_url :
  map host
    (results
       (run_checks (fst (fresh refusing O)) ["A"; "B"; "C"; "D"; "E"]
          [Some (live "A" 404 "http://a.test"); Some (live "B" 200 "http://m.com");
           None; Some (live "D" 200 "z.com"); Some (live "C" 200 "a.com")] 0%Q))
  = ["C"; "B"; "D"; "A"].
Proof. vm_compute. reflexivity. Qed.

(** ** The counters *)

(** C10.  The aggregation keeps [total_found] equal to the length of the
    result list and to the sum of the counts of [status_distribution]; a
    checker just built satisfies both, so they hold of what [run_checks]
    leaves, and the list it returns has one entry per result recorded. *)
Theorem run_checks_counts_agree :
  forall (P : Platform) (w : World P) (hosts : list string)
         (completed : list (option ScanResult)) (now : Q),
    let self := fst (init P w) in
    let self' := run_checks self hosts completed now in
    total_found (stats self') = Z.of_nat (length (results self')) /\
    dist_total (status_distribution (stats self')) = total_found (stats self') /\
    length (results self') = length (found completed) /\
    (forall other : Checker,
        aggregated other -> aggregated (run_checks other hosts completed now)).
Proof.
  intros P w hosts completed now self self'.
  assert (Hgen : forall other : Checker,
             aggregated other -> aggregated (run_checks other hosts completed now)).
  { intros other Hagg.
    assert (H1 : aggregated
                   (fold_left record_result completed
                      {| results := results other;
                         stats := {| total_checked := Z.of_nat (length hosts);
                                     total_found := total_found (stats other);
                                     start_time := start_time (stats other);
                                     end_time := end_time (stats other);
                                     status_distribution :=
                                       status_distribution (stats other);
                                     tech_distribution := tech_distribution (stats other);
                                     cms_distribution := cms_distribution (stats other);
                                     waf_distribution := waf_distribution (stats other) |};
                         last_request_time := last_request_time other;
                         user_agents := user_agents other;
                         current_user_agent := current_user_agent other |})).
    { apply fold_record_aggregated. exact Hagg. }
    destruct H1 as [H1 H2]. unfold aggregated, run_checks.
    cbn [results stats total_found status_distribution].
    split; [|exact H2].
    rewrite H1. f_equal. apply Permutation_length. symmetry. apply list_sort_perm. }
  destruct (Hgen self (init_aggregated P w)) as [H1 H2].
  split; [exact H1|]. split; [exact H2|]. split; [|exact Hgen].
  subst self'. rewrite run_checks_results.
  rewrite (Permutation_length (list_sort_perm sort_key _)).
  assert (Hnil : results self = []).
  { subst self. unfold init. cbn [fst snd].
    destruct (clock P w) as [t w1].
    destruct (pick P (length user_agent_pool) w1) as [i w2]. reflexivity. }
  rewrite Hnil. reflexivity.
Qed.

(** * Further properties *)

(** ** The rate limiter gate on its own *)

(** X1.  [_rate_limit_wait] does nothing when no rate limit is configured or
    when it is [0] (no clock reading, no division).  Otherwise it sleeps only
    when less than [1 / rate_limit] seconds passed since the last stamp, for
    the remainder of that period, which is a positive length; it changes no
    field of the checker but the stamp. *)
Theorem rate_limit_wait_sleeps_the_remainder :
  forall (P : Platform) (config : ScanConfig) (st : St P),
    let run := _rate_limit_wait P config st in
    match rate_limit config with
    | None => run = (Ok tt, st, [EvGate])
    | Some rate =>
        if rate =? 0 then run = (Ok tt, st, [EvGate])
        else
          let since := (fst (clock P (snd st)) - last_request_time (fst st))%Q in
          let period := (1 / inject_Z rate)%Q in
          outcome_of run = Ok tt /\
          ((since < period)%Q ->
           trace_of run = [EvGate; EvSleep (period - since)] /\
           (0 < period - since)%Q) /\
          ((period <= since)%Q -> trace_of run = [EvGate]) /\
          results (fst (snd (fst run))) = results (fst st) /\
          stats (fst (snd (fst run))) = stats (fst st) /\
          user_agents (fst (snd (fst run))) = user_agents (fst st) /\
          current_user_agent (fst (snd (fst run))) = current_user_agent (fst st)
    end.
Proof.
  intros P config st run. subst run. unfold _rate_limit_wait.
  destruct (rate_limit config) as [rate|]; [|reflexivity].
  destruct (rate =? 0); [reflexivity|].
  unfold bind, emit, time_time, get_self, put_self, time_sleep, ret.
  cbn [fst snd].
  destruct (clock P (snd st)) as [t0 w0]. cbn [fst snd].
  destruct (Qle_bool (1 / inject_Z rate) (t0 - last_request_time (fst st))) eqn:Hle;
    cbn [negb fst snd].
  - apply Qle_bool_iff in Hle.
    destruct (clock P w0) as [t1 w1]. cbn [fst snd outcome_of trace_of app].
    split; [reflexivity|]. split; [|split; [|repeat split]]; [|reflexivity].
    intros Hlt. exfalso. apply (Qlt_not_le _ _ Hlt Hle).
  - assert (Hlt : (t0 - last_request_time (fst st) < 1 / inject_Z rate)%Q).
    { apply Qnot_le_lt. intros H. apply Qle_bool_iff in H. congruence. }
    destruct (clock P (pause P _ w0)) as [t1 w1]. cbn [fst snd outcome_of trace_of app].
    split; [reflexivity|]. split; [|split; [|repeat split]].
    + intros _. split; [reflexivity | lra].
    + intros Hge. exfalso. apply (Qlt_not_le _ _ Hlt Hge).
Qed.

(** X2.  With a positive rate limit and a clock that sleeping advances, the
    stamp [_rate_limit_wait] leaves is at least [1 / rate_limit] seconds after
    the stamp it found: two calls that go through the gate are at least that
    far apart. *)
Theorem rate_limit_wait_spaces_calls :
  forall (P : Platform) (config : ScanConfig) (rate : Z) (st : St P),
    honest_clock P ->
    rate_limit config = Some rate -> 0 < rate ->
    let st' := snd (fst (_rate_limit_wait P config st)) in
    (last_request_time (fst st) + 1 / inject_Z rate <= last_request_time (fst st'))%Q.
Proof.
  intros P config rate st [Hread Hsleep] Hrate Hpos st'. subst st'.
  unfold _rate_limit_wait. rewrite Hrate.
  destruct (Z.eqb_spec rate 0) as [->|_]; [lia|].
  unfold bind, emit, time_time, get_self, put_self, time_sleep, ret.
  cbn [fst snd].
  pose proof (Hread (snd st)) as Hr0.
  destruct (clock P (snd st)) as [t0 w0]. cbn [fst snd] in *.
  destruct (Qle_bool (1 / inject_Z rate) (t0 - last_request_time (fst st))) eqn:Hle;
    cbn [negb fst snd].
  - apply Qle_bool_iff in Hle.
    destruct (clock P w0) as [t1 w1]. cbn [fst snd last_request_time] in *. lra.
  - pose proof (Hsleep (1 / inject_Z rate - (t0 - last_request_time (fst st)))%Q w0) as Hs.
    destruct (clock P (pause P _ w0)) as [t1 w1]. cbn [fst snd last_request_time] in *. lra.
Qed.

Lemma ticking_honest : honest_clock ticking.
Proof. split; intros; cbn; lra. Qed.

Lemma rate_limit_wait_spaces_calls_witness :
  (0 + 1 / inject_Z 10 <=
   last_request_time
     (fst (snd (fst (_rate_limit_wait ticking limited_config
                       (mkChecker [] empty_stats 0 [] O, 0%Q))))))%Q.
Proof.
  apply (rate_limit_wait_spaces_calls ticking limited_config 10
           (mkChecker [] empty_stats 0 [] O, 0%Q));
    [exact ticking_honest | reflexivity | lia].
Defined.

(** ** Headers, cookies and user agents *)

Lemma find_app_first {A} (p : A -> bool) l1 l2 :
  List.find p (l1 ++ l2) =
  match List.find p l1 with Some x => Some x | None => List.find p l2 end.
Proof.
  induction l1 as [|x l1 IH]; cbn [app List.find]; [reflexivity|].
  destruct (p x); [reflexivity | exact IH].
Qed.

Lemma fold_insert_lookup items : forall (d : gmap string string) k,
  fold_left (fun d kv => <[fst kv := snd kv]> d) items d !! k =
  match last_value k items with Some v => Some v | None => d !! k end.
Proof.
  unfold last_value.
  induction items as [|[k0 v0] items IH]; intros d k; cbn [fold_left rev].
  - reflexivity.
  - rewrite IH, find_app_first. cbn [fst snd].
    destruct (List.find _ (rev items)) as [kv|]; cbn [option_map List.find fst];
      [reflexivity|].
    destruct (String.eqb_spec k0 k) as [->|Hne]; cbn [option_map snd].
    + apply lookup_insert_eq.
    + now apply lookup_insert_ne.
Qed.

Lemma dict_of_items_lookup items k : dict_of_items items !! k = last_value k items.
Proof.
  unfold dict_of_items. rewrite fold_insert_lookup, lookup_empty.
  now destruct (last_value k items).
Qed.

Lemma last_value_In k v items : last_value k items = Some v -> In (k, v) items.
Proof.
  unfold last_value. destruct (List.find _ (rev items)) as [[k0 v0]|] eqn:Hf;
    [|discriminate].
  cbn. intros [= <-]. apply find_some in Hf. destruct Hf as [Hin Heq].
  cbn in Heq. apply String.eqb_eq in Heq. subst k0. now apply in_rev.
Qed.

Lemma In_last_value k v items : In (k, v) items -> last_value k items <> None.
Proof.
  unfold last_value. intros Hin Hnone.
  destruct (List.find _ (rev items)) as [kv|] eqn:Hf; [discriminate|].
  assert (Hk : String.eqb (fst (k, v)) k = false).
  { apply (find_none _ _ Hf (k, v)). now apply in_rev in Hin. }
  cbn in Hk. rewrite String.eqb_refl in Hk. discriminate.
Qed.

(** X4.  With [extract_cookies] on, [_extract_cookies] maps each cookie name
    to the value of the last cookie of the response with that name, and holds
    no other name; with it off the dictionary is empty. *)
Theorem extract_cookies_last_wins :
  forall (config : ScanConfig) (response : Response) (name : string),
    _extract_cookies config response !! name =
    if extract_cookies config then last_value name (resp_cookies response) else None.
Proof.
  intros config response name. unfold _extract_cookies.
  destruct (extract_cookies config); cbn [negb].
  - apply dict_of_items_lookup.
  - apply lookup_empty.
Qed.

(** X3.  [_extract_headers] only ever keeps a header of the response whose
    name, in lower case, is one of [server], [x-powered-by], [x-cdn], [cf-ray]
    and [x-sucuri-id], and only when [extract_headers] is on; then every such
    header of the response is kept under its own name. *)
Theorem extract_headers_keeps_the_five :
  forall (config : ScanConfig) (response : Response) (k : string),
    (forall v, _extract_headers config response !! k = Some v ->
               extract_headers config = true /\
               In (k, v) (resp_headers response) /\
               In (lower k) kept_headers) /\
    (extract_headers config = true -> In (lower k) kept_headers ->
     forall v, In (k, v) (resp_headers response) ->
               exists v', _extract_headers config response !! k = Some v' /\
                          In (k, v') (resp_headers response)).
Proof.
  intros config response k. unfold _extract_headers.
  assert (Hin : forall x l, str_in x l = true <-> In x l).
  { intros x l. unfold str_in. rewrite existsb_exists. split.
    - intros (y & Hy & Heq). apply String.eqb_eq in Heq. now subst.
    - intros H. exists x. split; [assumption | apply String.eqb_refl]. }
  split.
  - intros v. destruct (extract_headers config); cbn [negb].
    + rewrite dict_of_items_lookup. intros Hl. apply last_value_In in Hl.
      apply filter_In in Hl. destruct Hl as [Hl Hk]. cbn [fst] in Hk.
      apply Hin in Hk. auto.
    + rewrite lookup_empty. discriminate.
  - intros -> Hk v Hv. cbn [negb]. rewrite dict_of_items_lookup.
    assert (Hf : In (k, v) (List.filter
                              (fun kv => str_in (lower (fst kv))
                                 ["server"; "x-powered-by"; "x-cdn"; "cf-ray"; "x-sucuri-id"])
                              (resp_headers response))).
    { apply filter_In. split; [assumption|]. cbn [fst]. now apply Hin. }
    apply In_last_value in Hf.
    destruct (last_value k _) as [v'|] eqn:Hl; [|contradiction].
    exists v'. split; [reflexivity|].
    apply last_value_In in Hl. apply filter_In in Hl. tauto.
Qed.

Section RoundRobin.
Variable P : Platform.
Variable config : ScanConfig.
Hypothesis no_custom :
  match custom_user_agent config with Some ua => truthy_str ua | None => false end = false.
Hypothesis no_random : random_user_agent config = false.

Lemma round_robin_step (c : Checker) (w : World P) :
  _get_next_user_agent P config (c, w) =
  (Ok (nth (current_user_agent c) (user_agents c) ""),
   ({| results := results c; stats := stats c;
       last_request_time := last_request_time c;
       user_agents := user_agents c;
       current_user_agent :=
         ((current_user_agent c + 1) mod length (user_agents c))%nat |}, w),
   []).
Proof.
  unfold _get_next_user_agent. rewrite no_custom, no_random. reflexivity.
Qed.

Lemma round_robin_calls (k : nat) : forall (c : Checker) (w : World P),
  (current_user_agent c < length (user_agents c))%nat ->
  next_user_agents P config k (c, w) =
  (map (fun j => Ok (nth ((current_user_agent c + j) mod length (user_agents c))%nat
                       (user_agents c) ""))
       (seq 0 k),
   ({| results := results c; stats := stats c;
       last_request_time := last_request_time c;
       user_agents := user_agents c;
       current_user_agent :=
         ((current_user_agent c + k) mod length (user_agents c))%nat |}, w)).
Proof.
  induction k as [|k IH]; intros c w Hlt.
  - cbn [next_user_agents seq map]. rewrite Nat.add_0_r, Nat.mod_small by assumption.
    now destruct c.
  - cbn [next_user_agents]. rewrite round_robin_step.
    rewrite IH; cbn [user_agents current_user_agent results stats last_request_time];
      [|apply Nat.mod_upper_bound; lia].
    f_equal.
    + cbn [seq map]. rewrite Nat.add_0_r.
      rewrite (Nat.mod_small (current_user_agent c)) by assumption. f_equal.
      rewrite <- seq_shift, map_map. apply map_ext. intros j.
      rewrite Nat.Div0.add_mod_idemp_l. do 3 f_equal. lia.
    + do 2 f_equal. rewrite Nat.Div0.add_mod_idemp_l. f_equal. lia.
Qed.
End RoundRobin.

(** X5.  Without a custom user agent (none, or the empty string) and with
    [random_user_agent] off, successive calls of [_get_next_user_agent] return
    the user agents of the checker in order, starting at the current index and
    wrapping around; the index stays inside the list, and after as many calls
    as there are user agents the checker is back in the state it started
    from. *)
Theorem round_robin_visits_in_order :
  forall (P : Platform) (config : ScanConfig) (c : Checker) (w : World P) (k : nat),
    match custom_user_agent config with Some ua => truthy_str ua | None => false end
    = false ->
    random_user_agent config = false ->
    (current_user_agent c < length (user_agents c))%nat ->
    let n := length (user_agents c) in
    fst (next_user_agents P config k (c, w)) =
    map (fun j => Ok (nth ((current_user_agent c + j) mod n)%nat (user_agents c) ""))
      (seq 0 k) /\
    (current_user_agent (fst (snd (next_user_agents P config k (c, w)))) < n)%nat /\
    snd (next_user_agents P config n (c, w)) = (c, w).
Proof.
  intros P config c w k Hc Hr Hlt n. subst n.
  rewrite !(round_robin_calls P config Hc Hr) by assumption.
  cbn [fst snd current_user_agent]. split; [reflexivity|].
  split; [apply Nat.mod_upper_bound; lia|].
  f_equal. destruct c as [rs stt lrt uas i]. cbn in *. f_equal.
  rewrite <- (Nat.mul_1_l (length uas)) at 1.
  rewrite Nat.Div0.mod_add. now apply Nat.mod_small.
Qed.

Lemma round_robin_visits_in_order_witness :
  fst (next_user_agents refusing detailed_config 5 (fresh refusing O)) =
  map (fun j => Ok (nth (j mod 3) (user_agents (fst (fresh refusing O))) ""))
    (seq 0 5).
Proof.
  refine (proj1 (round_robin_visits_in_order refusing detailed_config
                   (fst (fresh refusing O)) O 5 _ _ _));
    [reflexivity | reflexivity | vm_compute; lia].
Defined.

(** ** The cost of a call *)

Lemma requests_app tr1 tr2 : requests (tr1 ++ tr2) = (requests tr1 + requests tr2)%nat.
Proof. unfold requests. now rewrite List.filter_app, List.length_app. Qed.

Lemma handler_requests_app tr1 tr2 :
  handler_requests (tr1 ++ tr2) = (handler_requests tr1 + handler_requests tr2)%nat.
Proof. unfold handler_requests. now rewrite List.filter_app, List.length_app. Qed.

Lemma sleeps_app tr1 tr2 : sleeps (tr1 ++ tr2) = sleeps tr1 ++ sleeps tr2.
Proof. unfold sleeps. apply omap_app. Qed.

Lemma early_attempts_length (r : Z) (n : nat) : forall i : nat,
  (length (List.filter (fun a => Z.ltb a r) (map Z.of_nat (seq i n)))
   <= Z.to_nat r - i)%nat.
Proof.
  induction n as [|n IH]; intros i; cbn [seq map List.filter]; [cbn; lia|].
  specialize (IH (S i)).
  destruct (Z.ltb_spec (Z.of_nat i) r); cbn [length]; lia.
Qed.

Section Budget.
Variable P : Platform.
Variable config : ScanConfig.
Variable host : string.

Lemma attempt_outcome_budget s a tr c :
  attempt_outcome P config host s a tr c ->
  requests tr = (probes tr + handler_requests tr)%nat /\
  (handler_requests tr <= if can_fall_back config s then 1 else 0)%nat /\
  (length (sleeps tr) <= if Z.ltb a (retries config) then 1 else 0)%nat.
Proof.
  inversion 1; subst; cbn;
    repeat match goal with
      | H : can_fall_back _ _ = _ |- _ => rewrite H
      end;
    repeat split; try lia;
    destruct (Z.ltb_spec a (retries config)); lia.
Qed.

Lemma attempts_trace_budget s atts tr res :
  attempts_trace P config host s atts tr res ->
  requests tr = (probes tr + handler_requests tr)%nat /\
  (handler_requests tr <= if can_fall_back config s then length atts else 0)%nat /\
  (length (sleeps tr) <= length (List.filter (fun a => Z.ltb a (retries config)) atts))%nat.
Proof.
  induction 1 as [|a rest tr r Hout|a rest tr c tr' res Hout Hc Hrest IH].
  - cbn. destruct (can_fall_back config s); repeat split; lia.
  - destruct (attempt_outcome_budget _ _ _ _ Hout) as (H1 & H2 & H3).
    cbn [length List.filter].
    destruct (can_fall_back config s), (a <? retries config); cbn [length];
      repeat split; lia.
  - destruct (attempt_outcome_budget _ _ _ _ Hout) as (H1 & H2 & H3).
    destruct IH as (I1 & I2 & I3).
    rewrite requests_app, probes_app, handler_requests_app, sleeps_app, List.length_app.
    cbn [length List.filter].
    destruct (can_fall_back config s), (a <? retries config); cbn [length];
      repeat split; lia.
Qed.

Lemma attempts_run_budget s tr res :
  attempts_trace P config host s (range (retries config + 1)) tr res ->
  requests tr = (probes tr + handler_requests tr)%nat /\
  (handler_requests tr
   <= if can_fall_back config s then Z.to_nat (retries config + 1) else 0)%nat /\
  (length (sleeps tr) <= Z.to_nat (retries config))%nat.
Proof.
  intros H. destruct (attempts_trace_budget _ _ _ _ H) as (H1 & H2 & H3).
  rewrite range_length in H2. split; [assumption|]. split; [assumption|].
  rewrite range_seq in H3.
  pose proof (early_attempts_length (retries config)
                (Z.to_nat (retries config + 1)) O). lia.
Qed.

Lemma schemes_run_budget tr res :
  schemes_trace P config host (schemes config) tr res ->
  requests tr = (probes tr + handler_requests tr)%nat /\
  (handler_requests tr <= Z.to_nat (retries config + 1))%nat /\
  (verify_ssl config = false -> handler_requests tr = O) /\
  (length (sleeps tr) <= 2 * Z.to_nat (retries config))%nat.
Proof.
  intros H.
  assert (Hhttp : can_fall_back config "http://" = false).
  { unfold can_fall_back. cbn. apply andb_false_r. }
  assert (Hoff : forall s, verify_ssl config = false -> can_fall_back config s = false).
  { intros s Hv. unfold can_fall_back. now rewrite Hv. }
  assert (Hone : forall s t r0,
             attempts_trace P config host s (range (retries config + 1)) t r0 ->
             requests t = (probes t + handler_requests t)%nat /\
             (handler_requests t <= Z.to_nat (retries config + 1))%nat /\
             (can_fall_back config s = false -> handler_requests t = O) /\
             (length (sleeps t) <= Z.to_nat (retries config))%nat).
  { intros s t r0 Ht. destruct (attempts_run_budget _ _ _ Ht) as (A1 & A2 & A3).
    split; [assumption|]. split; [destruct (can_fall_back config s); lia|].
    split; [|assumption]. intros Hf. rewrite Hf in A2. lia. }
  destruct (schemes_cases config) as [[E _]|[[E _]|[E|E]]]; rewrite E in H.
  - destruct (schemes_trace_pair _ _ _ _ _ _ _ H)
      as [(r & -> & H1)|(tr1 & tr2 & -> & H1 & H2)].
    + destruct (Hone _ _ _ H1) as (A1 & A2 & A3 & A4).
      split; [assumption|]. split; [assumption|]. split; [|lia].
      intros _. now apply A3.
    + destruct (Hone _ _ _ H1) as (A1 & A2 & A3 & A4).
      destruct (Hone _ _ _ H2) as (B1 & B2 & B3 & B4).
      rewrite requests_app, probes_app, handler_requests_app, sleeps_app,
        List.length_app.
      pose proof (A3 Hhttp) as A0.
      split; [lia|]. split; [lia|]. split; [|lia].
      intros Hv. pose proof (B3 (Hoff _ Hv)). lia.
  - apply schemes_trace_single in H. destruct (Hone _ _ _ H) as (A1 & A2 & A3 & A4).
    split; [assumption|]. split; [assumption|]. split; [|lia].
    intros _. now apply A3.
  - apply schemes_trace_single in H. destruct (Hone _ _ _ H) as (A1 & A2 & A3 & A4).
    split; [assumption|]. split; [assumption|]. split; [|lia].
    intros Hv. apply A3. now apply Hoff.
  - inversion H; subst. cbn. repeat split; lia.
Qed.
End Budget.

(** X6.  One call of [check_host] sends at most [3 * (retries + 1)] requests:
    at most [retries + 1] probe attempts on each scheme, none on a scheme
    that is not tried, and at most [retries + 1] requests from the [SSLError]
    handler, none at all when [verify_ssl] is off.  It sleeps at most
    [1 + 2 * retries] times (once in the gate, and once after each timeout
    that is retried). *)
Theorem check_host_request_budget :
  forall (P : Platform) (config : ScanConfig) (host : string) (st : St P),
    let tr := trace_of (check_host P config host st) in
    let n := Z.to_nat (retries config + 1) in
    requests tr = (probes tr + handler_requests tr)%nat /\
    (probes tr <= length (schemes config) * n)%nat /\
    (handler_requests tr <= n)%nat /\
    (verify_ssl config = false -> handler_requests tr = O) /\
    (requests tr <= 3 * n)%nat /\
    (length (sleeps tr) <= 1 + 2 * Z.to_nat (retries config))%nat /\
    (forall s : string, (probes_on s tr <= n)%nat) /\
    (forall s : string, ~ In s (schemes config) -> probes_on s tr = O).
Proof.
  intros P config host st tr n. subst tr n.
  pose proof (probes_on_run_bound P config host st) as Heach.
  assert (Hnone : forall s : string,
             ~ In s (schemes config) ->
             probes_on s (trace_of (check_host P config host st)) = O).
  { intros s Hs.
    destruct (check_host_facts P config host st)
      as (final & g & t1 & t2 & _ & -> & Hg & F1 & F2 & E1 & E2 & _).
    rewrite !probes_on_app, (gate_events_probes g s Hg). cbn [Nat.add].
    unfold schemes in Hs.
    destruct (String.eqb_spec "http://" s) as [<-|Hne1].
    - rewrite (probes_on_other "http://" "https://" t2); [|discriminate|exact F2].
      destruct (only_https config); [now rewrite (E1 eq_refl)|].
      exfalso. apply Hs. cbn. now left.
    - rewrite (probes_on_other s "http://" t1); [|exact Hne1|exact F1].
      destruct (String.eqb_spec "https://" s) as [<-|Hne2].
      + destruct (only_http config); [now rewrite (E2 eq_refl)|].
        exfalso. apply Hs. apply in_or_app. right. cbn. now left.
      + now rewrite (probes_on_other s "https://" t2). }
  destruct (check_host_facts P config host st)
    as (final & g & t1 & t2 & _ & Htrace & Hg & _ & _ & E1 & E2 & B1 & B2 & _ & _ & _
        & _ & Hsch).
  rewrite Htrace in *. clear Htrace.
  destruct (schemes_run_budget P config host _ _ Hsch) as (H1 & H2 & H3 & H4).
  assert (Hgate : requests g = O /\ probes g = O /\ handler_requests g = O /\
                  (length (sleeps g) <= 1)%nat).
  { destruct Hg as [->|[secs ->]]; cbn; repeat split; lia. }
  destruct Hgate as (G1 & G2 & G3 & G4).
  rewrite requests_app, probes_app, handler_requests_app, sleeps_app, List.length_app.
  rewrite G1, G2, G3. cbn [Nat.add].
  assert (Hp : (probes (t1 ++ t2)
                <= length (schemes config) * Z.to_nat (retries config + 1))%nat).
  { rewrite probes_app. unfold schemes.
    destruct (only_https config) eqn:Ehs; [rewrite (E1 eq_refl) in *|];
      (destruct (only_http config) eqn:Eh; [rewrite (E2 eq_refl) in *|]);
      cbn [negb app length probes List.filter] in *; lia. }
  assert (Hp2 : (probes (t1 ++ t2) <= 2 * Z.to_nat (retries config + 1))%nat).
  { rewrite probes_app. lia. }
  do 6 (split; [first [assumption | lia]|]).
  split; [exact Heach | exact Hnone].
Qed.

(** Both bounds are reached with the default [retries = 1]. *)
Example request_budget_reached :
  requests (trace_of (check_host broken_tls default_config "example.com"
                        (fresh broken_tls O))) = 6%nat /\
  length (sleeps (trace_of (check_host stalling limited_config "example.com"
                              (fresh stalling O)))) = 3%nat.
Proof. vm_compute. split; reflexivity. Qed.

(** ** What a call returns *)

Lemma filter_accepts config st :
  _should_include_status config st = true ->
  In st (match_codes config) /\ ~ In st (exclude_codes config) /\
  (include_codes config = [] \/ In st (include_codes config)).
Proof.
  unfold _should_include_status.
  destruct (py_in st (exclude_codes config)) eqn:Hex;
    [apply py_in_In in Hex | apply py_in_false in Hex];
  (destruct (py_in st (include_codes config)) eqn:Hin;
    [apply py_in_In in Hin | apply py_in_false in Hin]);
  destruct (exclude_codes config) as [|e es];
  destruct (include_codes config) as [|i0 ins]; simpl;
  rewrite ?py_in_In; simpl in *;
  intuition (try congruence).
Qed.

Lemma schemes_member config s :
  In s (schemes config) ->
  s = "http://" /\ only_https config = false \/
  s = "https://" /\ only_http config = false.
Proof.
  unfold schemes.
  destruct (only_https config), (only_http config); cbn; intuition.
Qed.

(** The last event of a run that returns a result, and the result. *)
Lemma check_host_returned P config hostname (st : St P) r :
  outcome_of (check_host P config hostname st) = Ok (Some r) ->
  exists pre site req resp,
    trace_of (check_host P config hostname st) = pre ++ [EvGet site req (inr resp)] /\
    passes config resp = true /\
    In (at_scheme site) (schemes config) /\
    req_url req = String.append (at_scheme site) hostname /\
    if in_handler site
    then at_scheme site = "https://" /\
         r = fallback_result P config hostname (req_url req) resp
    else exists ip rt,
        r = full_result P config hostname (req_url req) (at_scheme site) resp ip rt.
Proof.
  intros Hout.
  destruct (check_host_facts P config hostname st)
    as (final & g & t1 & t2 & Hres & Htr & _ & _ & _ & _ & _ & _ & _ & _ & Hm & Hrule & _).
  assert (final = Some r) by congruence. subst final.
  destruct (Hm r eq_refl) as (pre & site & req & resp & Hlast & Hp).
  exists (g ++ pre), site, req, resp.
  assert (Htr' : trace_of (check_host P config hostname st)
                 = (g ++ pre) ++ [EvGet site req (inr resp)]).
  { rewrite Htr, Hlast. now rewrite app_assoc. }
  split; [assumption|]. split; [assumption|].
  rewrite Htr' in Hrule. apply all_suffix_at in Hrule.
  pose proof (rule_request_url _ _ _ _ _ _ _ _ Hrule) as Hurl.
  cbn [rule] in Hrule. destruct Hrule as (Hs & _ & hdrs & Hrule).
  split; [assumption|]. split; [assumption|]. rewrite Hurl.
  destruct (in_handler site); cbv beta iota in Hrule.
  - destruct Hrule as (_ & Hfb & Hafter). unfold after_fallback in Hafter.
    rewrite Hp in Hafter. destruct Hafter as [_ Hfin].
    unfold can_fall_back in Hfb. apply andb_prop in Hfb. destruct Hfb as [_ Hfb].
    apply String.eqb_eq in Hfb. split; [assumption | congruence].
  - destruct Hrule as (_ & Hafter). unfold after_probe in Hafter.
    rewrite Hp in Hafter. destruct Hafter as (ip & rt & _ & Hfin).
    exists ip, rt. congruence.
Qed.

(** X7.  A result [check_host] returns carries the host it was called with
    and a status the filter accepts (in [match_codes], not in [exclude_codes],
    in [include_codes] when that list is not empty); its scheme is ["http"] or
    ["https"], never one the configuration rules out; and with
    [follow_redirects] off its URL is [scheme://host]. *)
Theorem returned_result_passes_filter :
  forall (P : Platform) (config : ScanConfig) (hostname : string) (st : St P)
         (r : ScanResult),
    outcome_of (check_host P config hostname st) = Ok (Some r) ->
    host r = hostname /\
    In (status r) (match_codes config) /\
    ~ In (status r) (exclude_codes config) /\
    (include_codes config = [] \/ In (status r) (include_codes config)) /\
    (scheme r = "http" /\ only_https config = false \/
     scheme r = "https" /\ only_http config = false) /\
    (follow_redirects config = false ->
     url r = String.append (scheme r) (String.append "://" hostname)).
Proof.
  intros P config hostname st r Hout.
  destruct (check_host_returned P config hostname st r Hout)
    as (pre & site & req & resp & _ & Hp & Hs & Hurl & Hr).
  apply filter_accepts in Hp. destruct Hp as (Hm & He & Hi).
  apply schemes_member in Hs.
  destruct (in_handler site).
  - destruct Hr as [Hsch ->]. cbn [host status scheme url fallback_result].
    repeat split; try assumption.
    + right. split; [reflexivity|]. destruct Hs as [[Hs _]|[_ Hs]]; congruence.
    + intros ->. rewrite Hurl, Hsch. reflexivity.
  - destruct Hr as (ip & rt & ->). cbn [host status scheme url full_result].
    repeat split; try assumption.
    + destruct Hs as [[-> Hs]|[-> Hs]]; [left | right]; split; auto.
    + intros ->. rewrite Hurl. destruct Hs as [[-> _]|[-> _]]; reflexivity.
Qed.

Lemma returned_result_passes_filter_witness :
  In (status (live "example.com" 200 "https://example.com"))
    (match_codes default_config) /\
  outcome_of (check_host https_only default_config "example.com" (fresh https_only O))
  = Ok (Some (live "example.com" 200 "https://example.com")).
Proof.
  assert (H : outcome_of (check_host https_only default_config "example.com"
                            (fresh https_only O))
              = Ok (Some (live "example.com" 200 "https://example.com")))
    by (vm_compute; reflexivity).
  split; [|exact H].
  apply (returned_result_passes_filter https_only default_config "example.com"
           (fresh https_only O) _ H).
Defined.

(** X8.  An answer whose status the filter refuses is treated like a failed
    attempt: [check_host] does not sleep and goes on with the next attempt on
    the same scheme while [attempt < retries], then with the next scheme, and
    returns nothing for it. *)
Theorem refused_status_is_retried :
  forall (P : Platform) (config : ScanConfig) (host : string) (st : St P)
         pre site req resp post,
    let run := check_host P config host st in
    trace_of run = pre ++ EvGet site req (inr resp) :: post ->
    _should_include_status config (status_code resp) = false ->
    exists final,
      outcome_of run = Ok final /\
      moves_on config host final (at_scheme site) (at_attempt site) post /\
      (forall secs post', post <> EvSleep secs :: post') /\
      (forall r, final = Some r -> post <> []).
Proof.
  intros P config host st pre site req resp post run Htr Hp. subst run.
  destruct (check_host_rule_at P config host st _ _ _ Htr) as (final & Hres & Hrule).
  exists final. split; [assumption|].
  cbn [rule] in Hrule. destruct Hrule as (_ & _ & hdrs & Hrule).
  assert (Hmv : moves_on config host final (at_scheme site) (at_attempt site) post).
  { destruct (in_handler site); cbv beta iota in Hrule.
    - destruct Hrule as (_ & _ & Hafter). unfold after_fallback, passes in Hafter.
      now rewrite Hp in Hafter.
    - destruct Hrule as (_ & Hafter). unfold after_probe, passes in Hafter.
      now rewrite Hp in Hafter. }
  split; [assumption|]. split.
  - intros secs post'. eapply moves_on_no_sleep; eassumption.
  - intros r Hr ->.
    destruct Hmv as [[_ (h & o & t' & Habs)]|[_ [(_ & _ & (h & o & t' & Habs))|(_ & _ & Hn)]]];
      try discriminate. congruence.
Qed.

Lemma refused_status_is_retried_witness :
  exists final,
    outcome_of (check_host (answering 500) default_config "example.com"
                  (fresh (answering 500) O)) = Ok final /\
    moves_on default_config "example.com" final "http://" 0
      (skipn 2 (trace_of (check_host (answering 500) default_config "example.com"
                            (fresh (answering 500) O)))).
Proof.
  destruct (refused_status_is_retried (answering 500) default_config "example.com"
              (fresh (answering 500) O) [EvGate] (mkSite "http://" 0 false)
              (request default_config "http://example.com"
                 (∅ ∪ {[ "User-Agent" := nth 0 user_agent_pool "" ]}) true)
              (blank_response 500 "http://example.com")
              (skipn 2 (trace_of (check_host (answering 500) default_config
                                    "example.com" (fresh (answering 500) O)))))
    as (final & H1 & H2 & _);
    [vm_compute; reflexivity | reflexivity |].
  exists final. split; assumption.
Defined.

(** X9.  An SSL error of a probe attempt on [http], or with [verify_ssl] off,
    gets no second request: [check_host] goes on with the next attempt or the
    next scheme, without sleeping. *)
Theorem ssl_error_without_fallback :
  forall (P : Platform) (config : ScanConfig) (host : string) (st : St P)
         pre site req e post,
    let run := check_host P config host st in
    trace_of run = pre ++ EvGet site req (inl e) :: post ->
    in_handler site = false ->
    issubclass e SSLError = true ->
    verify_ssl config = false \/ at_scheme site = "http://" ->
    exists final,
      outcome_of run = Ok final /\
      moves_on config host final (at_scheme site) (at_attempt site) post /\
      (forall site' req' out' post',
          post = EvGet site' req' out' :: post' -> in_handler site' = false) /\
      (forall secs post', post <> EvSleep secs :: post').
Proof.
  intros P config host st pre site req e post run Htr Hsite Hssl Hno. subst run.
  destruct (check_host_rule_at P config host st _ _ _ Htr) as (final & Hres & Hrule).
  exists final. split; [assumption|].
  cbn [rule] in Hrule. destruct Hrule as (_ & _ & hdrs & Hrule).
  rewrite Hsite in Hrule. destruct Hrule as [_ Hafter].
  unfold after_probe in Hafter. rewrite Hssl in Hafter.
  assert (Hfb : can_fall_back config (at_scheme site) = false).
  { unfold can_fall_back. destruct Hno as [-> | ->]; [reflexivity|].
    cbn. apply andb_false_r. }
  rewrite Hfb in Hafter.
  split; [assumption|]. split.
  - intros site' req' out' post' ->.
    destruct Hafter as [[_ (h & o & t' & Heq)]|[_ [(_ & _ & (h & o & t' & Heq))|(_ & Heq & _)]]];
      try discriminate; injection Heq as -> _ _ _; reflexivity.
  - intros secs post'. eapply moves_on_no_sleep; eassumption.
Qed.

Lemma ssl_error_without_fallback_witness :
  exists final,
    outcome_of (check_host self_signed default_config "example.com"
                  (fresh self_signed O)) = Ok final /\
    moves_on default_config "example.com" final "http://" 0
      (skipn 2 (trace_of (check_host self_signed default_config "example.com"
                            (fresh self_signed O)))).
Proof.
  destruct (ssl_error_without_fallback self_signed default_config "example.com"
              (fresh self_signed O) [EvGate] (mkSite "http://" 0 false)
              (request default_config "http://example.com"
                 (∅ ∪ {[ "User-Agent" := nth 0 user_agent_pool "" ]}) true)
              SSLError
              (skipn 2 (trace_of (check_host self_signed default_config
                                    "example.com" (fresh self_signed O)))))
    as (final & H1 & H2 & _);
    [vm_compute; reflexivity | reflexivity | reflexivity | right; reflexivity |].
  exists final. split; assumption.
Defined.

(** X10.  A result that comes from the request of the [SSLError] handler has
    scheme ["https"] and none of the enrichment: no IP address, no response
    time, no technologies, CMS, WAF or CDN, no headers or cookies, no form
    flags, whatever the configuration enables. *)
Theorem fallback_result_is_bare :
  forall (P : Platform) (config : ScanConfig) (hostname : string) (st : St P)
         (r : ScanResult) pre site req out,
    let run := check_host P config hostname st in
    outcome_of run = Ok (Some r) ->
    trace_of run = pre ++ [EvGet site req out] ->
    in_handler site = true ->
    scheme r = "https" /\
    ip_address r = "" /\ response_time r = 0%Q /\
    technologies r = [] /\ cms r = "" /\ waf r = "" /\ cdn r = "" /\
    headers r = ∅ /\ cookies r = ∅ /\
    has_form r = false /\ has_login r = false.
Proof.
  intros P config hostname st r pre site req out run Hout Htr Hsite. subst run.
  destruct (check_host_returned P config hostname st r Hout)
    as (pre' & site' & req' & resp & Htr' & _ & _ & _ & Hr).
  rewrite Htr in Htr'. apply app_inj_tail in Htr'. destruct Htr' as [_ Hev].
  injection Hev as <- <- _. rewrite Hsite in Hr. destruct Hr as [_ ->].
  cbn. repeat split; reflexivity.
Qed.

Lemma fallback_result_is_bare_witness :
  technologies (live "example.com" 200 "https://example.com") = [] /\
  outcome_of (check_host self_signed default_config "example.com"
                (fresh self_signed O))
  = Ok (Some (live "example.com" 200 "https://example.com")).
Proof.
  assert (H : outcome_of (check_host self_signed default_config "example.com"
                            (fresh self_signed O))
              = Ok (Some (live "example.com" 200 "https://example.com")))
    by (vm_compute; reflexivity).
  split; [|exact H].
  apply (fallback_result_is_bare self_signed default_config "example.com"
           (fresh self_signed O) _
           (firstn 4 (trace_of (check_host self_signed default_config "example.com"
                                  (fresh self_signed O))))
           (mkSite "https://" 0 true)
           (request default_config "https://example.com"
              (∅ ∪ {[ "User-Agent" := nth 0 user_agent_pool "" ]}) false)
           (inr (blank_response 200 "https://example.com")) H);
    [vm_compute; reflexivity | reflexivity].
Defined.

(** X11.  In a result [check_host] returns, a field whose toggle is off has
    its default value; [redirect_chain] and [is_wordpress] are never filled,
    and the content length is not negative. *)
Theorem disabled_toggles_leave_defaults :
  forall (P : Platform) (config : ScanConfig) (hostname : string) (st : St P)
         (r : ScanResult),
    outcome_of (check_host P config hostname st) = Ok (Some r) ->
    (tech_detection config = false -> technologies r = []) /\
    (detect_cms config = false -> cms r = "") /\
    (detect_waf config = false -> waf r = "") /\
    (detect_cdn config = false -> cdn r = "") /\
    (find_forms config = false -> has_form r = false) /\
    (find_logins config = false -> has_login r = false) /\
    (extract_headers config = false -> headers r = ∅) /\
    (extract_cookies config = false -> cookies r = ∅) /\
    redirect_chain r = [] /\ is_wordpress r = false /\
    0 <= content_length r.
Proof.
  intros P config hostname st r Hout.
  destruct (check_host_returned P config hostname st r Hout)
    as (pre & site & req & resp & _ & _ & _ & _ & Hr).
  destruct (in_handler site).
  - destruct Hr as [_ ->]. cbn. repeat split; auto; lia.
  - destruct Hr as (ip & rt & ->).
    cbn [technologies cms waf cdn has_form has_login headers cookies
         redirect_chain is_wordpress content_length full_result].
    unfold _extract_headers, _extract_cookies.
    repeat split; try (intros ->; reflexivity); try reflexivity. lia.
Qed.

Lemma disabled_toggles_leave_defaults_witness :
  redirect_chain (live "example.com" 200 "https://example.com") = [] /\
  outcome_of (check_host https_only default_config "example.com" (fresh https_only O))
  = Ok (Some (live "example.com" 200 "https://example.com")).
Proof.
  assert (H : outcome_of (check_host https_only default_config "example.com"
                            (fresh https_only O))
              = Ok (Some (live "example.com" 200 "https://example.com")))
    by (vm_compute; reflexivity).
  split; [|exact H].
  apply (disabled_toggles_leave_defaults https_only default_config "example.com"
           (fresh https_only O) _ H).
Defined.

(** ** The distributions *)

Lemma bump_all_lookup `{Countable K} (keys : list K) : forall (d : gmap K Z) (k : K),
  default 0 (bump_all keys d !! k) = default 0 (d !! k) + occurrences k keys /\
  (bump_all keys d !! k = None <-> d !! k = None /\ ~ In k keys).
Proof.
  unfold bump_all, occurrences.
  induction keys as [|k0 keys IH]; intros d k; cbn [fold_left List.filter].
  - cbn. split; [lia | tauto].
  - destruct (IH (bump k0 d) k) as [IH1 IH2]. rewrite IH1, IH2. unfold bump.
    destruct (decide (k0 = k)) as [->|Hne].
    + rewrite lookup_insert_eq, bool_decide_eq_true_2 by reflexivity.
      simpl. split; [lia|]. split.
      * intros [Habs _]. discriminate.
      * intros [_ Habs]. exfalso. apply Habs. now left.
    + rewrite lookup_insert_ne, bool_decide_eq_false_2 by assumption.
      simpl. split; [lia|]. tauto.
Qed.

Lemma occurrences_perm `{EqDecision K} (k : K) l1 l2 :
  Permutation l1 l2 -> occurrences k l1 = occurrences k l2.
Proof.
  intros Hp. unfold occurrences. f_equal. apply Permutation_length.
  induction Hp; cbn [List.filter].
  - reflexivity.
  - destruct (bool_decide _); [now constructor | assumption].
  - destruct (bool_decide (y = k)), (bool_decide (x = k)); try reflexivity.
    apply perm_swap.
  - etransitivity; eassumption.
Qed.

Lemma fold_record_stats completed : forall self,
  let self' := fold_left record_result completed self in
  let st := stats self in
  let st' := stats self' in
  total_checked st' = total_checked st /\
  total_found st' = total_found st + Z.of_nat (length (found completed)) /\
  status_distribution st' =
    bump_all (map status (found completed)) (status_distribution st) /\
  tech_distribution st' =
    bump_all (all_technologies (found completed)) (tech_distribution st) /\
  cms_distribution st' = bump_all (named cms (found completed)) (cms_distribution st) /\
  waf_distribution st' = bump_all (named waf (found completed)) (waf_distribution st).
Proof.
  unfold found, all_technologies, named, bump_all.
  induction completed as [|r completed IH]; intros self; cbn [fold_left].
  - cbn. repeat split; lia.
  - specialize (IH (record_result self r)). cbn zeta in IH.
    destruct IH as (I1 & I2 & I3 & I4 & I5 & I6).
    cbn zeta. rewrite I1, I2, I3, I4, I5, I6. clear.
    destruct r as [r|]; cbn [record_result stats total_checked total_found
      status_distribution tech_distribution cms_distribution waf_distribution];
      [|repeat split; reflexivity].
    change (omap id (Some r :: completed)) with (r :: omap id completed).
    cbn [map length concat List.filter fold_left].
    rewrite fold_left_app.
    destruct (truthy_str (cms r)), (truthy_str (waf r)); cbn [fold_left];
      repeat split; lia.
Qed.

Lemma run_checks_stats self hosts completed now :
  let st := stats self in
  let st' := stats (run_checks self hosts completed now) in
  total_checked st' = Z.of_nat (length hosts) /\
  total_found st' = total_found st + Z.of_nat (length (found completed)) /\
  status_distribution st' =
    bump_all (map status (found completed)) (status_distribution st) /\
  tech_distribution st' =
    bump_all (all_technologies (found completed)) (tech_distribution st) /\
  cms_distribution st' = bump_all (named cms (found completed)) (cms_distribution st) /\
  waf_distribution st' = bump_all (named waf (found completed)) (waf_distribution st).
Proof.
  cbn zeta. unfold run_checks.
  cbn [stats total_checked total_found status_distribution tech_distribution
       cms_distribution waf_distribution].
  match goal with |- context [fold_left record_result completed ?c] =>
    pose proof (fold_record_stats completed c) as H end.
  cbn zeta in H. cbn [stats total_checked total_found status_distribution
    tech_distribution cms_distribution waf_distribution] in H.
  exact H.
Qed.

Lemma init_stats (P : Platform) (w : World P) :
  results (fst (init P w)) = [] /\
  total_found (stats (fst (init P w))) = 0 /\
  status_distribution (stats (fst (init P w))) = ∅ /\
  tech_distribution (stats (fst (init P w))) = ∅ /\
  cms_distribution (stats (fst (init P w))) = ∅ /\
  waf_distribution (stats (fst (init P w))) = ∅.
Proof.
  unfold init. destruct (clock P w) as [t w1].
  destruct (pick P (length user_agent_pool) w1) as [i w2]. cbn.
  repeat split; reflexivity.
Qed.

(** X12.  After [run_checks] on a checker just built, [status_distribution]
    maps each status to the number of results returned that have it, and has
    no entry for a status no result has. *)
Theorem status_distribution_counts_results :
  forall (P : Platform) (w : World P) (hosts : list string)
         (completed : list (option ScanResult)) (now : Q) (code : Z),
    let self' := run_checks (fst (init P w)) hosts completed now in
    default 0 (status_distribution (stats self') !! code) =
      occurrences code (map status (results self')) /\
    (status_distribution (stats self') !! code = None <->
     ~ In code (map status (results self'))).
Proof.
  intros P w hosts completed now code self'. subst self'.
  destruct (run_checks_stats (fst (init P w)) hosts completed now)
    as (_ & _ & Hs & _).
  destruct (init_stats P w) as (Hr & _ & Hd & _).
  rewrite Hs, Hd.
  destruct (bump_all_lookup (map status (found completed)) ∅ code) as [H1 H2].
  assert (Hperm : Permutation (map status (found completed))
                    (map status (results (run_checks (fst (init P w)) hosts
                                            completed now)))).
  { apply Permutation_map. rewrite run_checks_results, Hr. cbn [app].
    symmetry. apply list_sort_perm. }
  rewrite H1, H2, lookup_empty. cbn [default].
  split.
  - rewrite (occurrences_perm code _ _ Hperm). lia.
  - split.
    + intros [_ Hn] Hin. apply Hn. eapply Permutation_in; [symmetry; exact Hperm|].
      exact Hin.
    + intros Hn. split; [reflexivity|]. intros Hin. apply Hn.
      eapply Permutation_in; [exact Hperm | exact Hin].
Qed.

(** X13.  After [run_checks] on a checker just built, [tech_distribution]
    counts each technology once per result recorded that lists it (twice if a
    result lists it twice), and [cms_distribution] and [waf_distribution] count
    the results recorded with that CMS or WAF; the empty CMS and the empty WAF
    are never counted. *)
Theorem label_distributions_count_results :
  forall (P : Platform) (w : World P) (hosts : list string)
         (completed : list (option ScanResult)) (now : Q) (label : string),
    let self' := run_checks (fst (init P w)) hosts completed now in
    default 0 (tech_distribution (stats self') !! label) =
      occurrences label (all_technologies (found completed)) /\
    default 0 (cms_distribution (stats self') !! label) =
      occurrences label (named cms (found completed)) /\
    default 0 (waf_distribution (stats self') !! label) =
      occurrences label (named waf (found completed)) /\
    cms_distribution (stats self') !! "" = None /\
    waf_distribution (stats self') !! "" = None.
Proof.
  intros P w hosts completed now label self'. subst self'.
  destruct (run_checks_stats (fst (init P w)) hosts completed now)
    as (_ & _ & _ & Ht & Hc & Hw).
  destruct (init_stats P w) as (_ & _ & _ & Et & Ec & Ew).
  rewrite Ht, Hc, Hw, Et, Ec, Ew.
  assert (Hempty : forall field rs, ~ In "" (named field rs)).
  { intros field rs Hin. unfold named in Hin. apply filter_In in Hin.
    destruct Hin as [_ Habs]. discriminate. }
  repeat split.
  - destruct (bump_all_lookup (all_technologies (found completed)) ∅ label) as [H _].
    rewrite H, lookup_empty. cbn [default]. lia.
  - destruct (bump_all_lookup (named cms (found completed)) ∅ label) as [H _].
    rewrite H, lookup_empty. cbn [default]. lia.
  - destruct (bump_all_lookup (named waf (found completed)) ∅ label) as [H _].
    rewrite H, lookup_empty. cbn [default]. lia.
  - apply (bump_all_lookup (named cms (found completed)) ∅ ""). split; [apply lookup_empty|].
    apply Hempty.
  - apply (bump_all_lookup (named waf (found completed)) ∅ ""). split; [apply lookup_empty|].
    apply Hempty.
Qed.

(** ** Running the checks again *)


Lemma found_length completed : (length (found completed) <= length completed)%nat.
Proof.
  unfold found. induction completed as [|[r|] completed IH]; cbn; lia.
Qed.

Lemma found_none completed :
  Forall (fun r => r = None) completed -> found completed = [].
Proof.
  unfold found. induction 1 as [|r completed -> _ IH]; [reflexivity | exact IH].
Qed.

Lemma found_app l1 l2 : found (l1 ++ l2) = found l1 ++ found l2.
Proof. unfold found. apply omap_app. Qed.




(** X15.  Two calls of [run_checks] on one checker accumulate: the list
    returned by the second call holds the results of both, sorted, with the
    keys in the same order as one call on all the hosts would give, and
    [total_found] and [status_distribution] are those of that one call; but
    [total_checked] is the number of hosts of the second call alone. *)
Theorem run_checks_twice_accumulates :
  forall (P : Platform) (w : World P) (hosts1 hosts2 : list string)
         (completed1 completed2 : list (option ScanResult)) (now1 now2 : Q),
    let once := run_checks (fst (init P w)) hosts1 completed1 now1 in
    let twice := run_checks once hosts2 completed2 now2 in
    let both := run_checks (fst (init P w)) (hosts1 ++ hosts2)
                  (completed1 ++ completed2) now2 in
    Permutation (results twice) (found completed1 ++ found completed2) /\
    StronglySorted (le_by sort_key) (results twice) /\
    map sort_key (results twice) = map sort_key (results both) /\
    total_found (stats twice) = total_found (stats both) /\
    status_distribution (stats twice) = status_distribution (stats both) /\
    total_checked (stats twice) = Z.of_nat (length hosts2) /\
    total_checked (stats both) = Z.of_nat (length hosts1 + length hosts2).
Proof.
  intros P w hosts1 hosts2 completed1 completed2 now1 now2 once twice both.
  subst once twice both.
  destruct (init_stats P w) as (Hr & Hf & Hd & _).
  set (c0 := fst (init P w)) in *.
  destruct (run_checks_stats c0 hosts1 completed1 now1) as (A1 & A2 & A3 & _).
  destruct (run_checks_stats (run_checks c0 hosts1 completed1 now1) hosts2 completed2
              now2) as (B1 & B2 & B3 & _).
  destruct (run_checks_stats c0 (hosts1 ++ hosts2) (completed1 ++ completed2) now2)
    as (C1 & C2 & C3 & _).
  assert (Hperm : Permutation
                    (results (run_checks (run_checks c0 hosts1 completed1 now1)
                                hosts2 completed2 now2))
                    (found completed1 ++ found completed2)).
  { rewrite run_checks_results, list_sort_perm, run_checks_results, Hr. cbn [app].
    apply Permutation_app_tail. apply list_sort_perm. }
  split; [exact Hperm|]. split.
  { rewrite run_checks_results. apply Sorted_StronglySorted.
    - intros x y z. unfold le_by. apply key_le_trans.
    - apply list_sort_sorted. }
  split.
  { rewrite !(run_checks_results _ _ _ now2), !map_list_sort.
    apply sorted_keys_unique. apply Permutation_map.
    rewrite run_checks_results, Hr, found_app. cbn [app].
    apply Permutation_app_tail. apply list_sort_perm. }
  split; [rewrite B2, A2, C2, found_app, List.length_app; lia|].
  split.
  { rewrite B3, A3, C3, found_app, map_app. unfold bump_all.
    now rewrite fold_left_app. }
  split; [assumption|]. rewrite C1, List.length_app. reflexivity.
Qed.

(** X16.  After [run_checks] on a checker just built, with one completed
    future per host, [0 <= total_found <= total_checked = len(hosts)], with
    equality exactly when every host gave a result. *)
Theorem found_at_most_checked :
  forall (P : Platform) (w : World P) (hosts : list string)
         (completed : list (option ScanResult)) (now : Q),
    length completed = length hosts ->
    let self' := run_checks (fst (init P w)) hosts completed now in
    0 <= total_found (stats self') <= total_checked (stats self') /\
    total_checked (stats self') = Z.of_nat (length hosts) /\
    (total_found (stats self') = total_checked (stats self') <->
     Forall (fun r => r <> None) completed).
Proof.
  intros P w hosts completed now Hlen self'. subst self'.
  destruct (init_stats P w) as (_ & Hf & _).
  destruct (run_checks_stats (fst (init P w)) hosts completed now) as (A1 & A2 & _).
  rewrite A1, A2, Hf, <- Hlen.
  pose proof (found_length completed) as Hle.
  split; [lia|]. split; [reflexivity|].
  clear. unfold found. split.
  - induction completed as [|[r|] completed IH]; cbn; intros H.
    + constructor.
    + constructor; [discriminate|]. apply IH. lia.
    + exfalso. pose proof (found_length completed). unfold found in *. lia.
  - induction 1 as [|[r|] completed Hr _ IH]; cbn; [reflexivity | lia | congruence].
Qed.

Lemma found_at_most_checked_witness :
  total_checked
    (stats (run_checks (fst (fresh refusing O)) ["a.test"; "b.test"]
              [Some (live "a.test" 200 "http://a.test"); None] 0%Q)) = 2.
Proof.
  apply (found_at_most_checked refusing O ["a.test"; "b.test"]
           [Some (live "a.test" 200 "http://a.test"); None] 0%Q).
  reflexivity.
Defined.

(** ** Fingerprints from the headers *)

Lemma lower_ascii_idem c : lower_ascii (lower_ascii c) = lower_ascii c.
Proof. destruct c as [[] [] [] [] [] [] [] []]; reflexivity. Qed.

Lemma lower_idem s : lower (lower s) = lower s.
Proof.
  induction s as [|c s IH]; cbn [lower]; [reflexivity|].
  now rewrite lower_ascii_idem, IH.
Qed.

Lemma append_cons c a b :
  String.append (String c a) b = String c (String.append a b).
Proof. reflexivity. Qed.

Lemma append_nil b : String.append "" b = b.
Proof. reflexivity. Qed.

Lemma lower_app a b : lower (String.append a b) = String.append (lower a) (lower b).
Proof.
  induction a as [|c a IH]; [reflexivity|].
  rewrite append_cons. cbn [lower]. now rewrite append_cons, IH.
Qed.

Lemma lower_concat sep l :
  lower (String.concat sep l) = String.concat (lower sep) (map lower l).
Proof.
  induction l as [|x l IH]; [reflexivity|].
  destruct l as [|y l]; [reflexivity|].
  change (String.concat sep (x :: y :: l))
    with (String.append x (String.append sep (String.concat sep (y :: l)))).
  change (String.concat (lower sep) (map lower (x :: y :: l)))
    with (String.append (lower x)
            (String.append (lower sep) (String.concat (lower sep) (map lower (y :: l))))).
  now rewrite !lower_app, IH.
Qed.

Lemma prefix_app n a b :
  String.prefix n a = true -> String.prefix n (String.append a b) = true.
Proof.
  revert a. induction n as [|c n IH]; intros [|c' a]; rewrite ?append_cons, ?append_nil;
    cbn [String.prefix]; try congruence.
  - now destruct b.
  - destruct (ascii_dec c c'); [apply IH | congruence].
Qed.

Lemma contains_app_l n a b :
  contains n a = true -> contains n (String.append a b) = true.
Proof.
  induction a as [|c a IH].
  - rewrite append_nil. cbn [contains]. rewrite orb_false_r.
    intros H. destruct n; [|discriminate]. destruct b; reflexivity.
  - intros H. cbn [contains] in H. apply orb_prop in H. destruct H as [H|H].
    + pose proof (prefix_app _ _ b H) as Hp. rewrite append_cons in *.
      cbn [contains]. rewrite Hp. reflexivity.
    + rewrite append_cons. cbn [contains]. rewrite (IH H). apply orb_true_r.
Qed.

Lemma contains_app_r n a b :
  contains n b = true -> contains n (String.append a b) = true.
Proof.
  intros H. induction a as [|c a IH]; [assumption|].
  rewrite append_cons. cbn [contains]. rewrite IH. apply orb_true_r.
Qed.

Lemma contains_concat n sep x l :
  In x l -> contains n x = true -> contains n (String.concat sep l) = true.
Proof.
  intros Hin Hx. induction l as [|y l IH]; [contradiction|].
  destruct l as [|z l].
  - destruct Hin as [->|[]]. exact Hx.
  - change (String.concat sep (y :: z :: l))
      with (String.append y (String.append sep (String.concat sep (z :: l)))).
    destruct Hin as [->|Hin].
    + now apply contains_app_l.
    + apply contains_app_r, contains_app_r. now apply IH.
Qed.

Lemma existsb_entry text indicators name :
  existsb (fun indicator => contains (lower indicator) text) indicators = true <->
  entry_matches text (name, indicators).
Proof.
  unfold entry_matches. cbn [snd]. rewrite existsb_exists. tauto.
Qed.

(** The entry [first_match] picks: the first that matches. *)
Lemma first_match_spec table text :
  (first_match table text = "" /\ Forall (fun e => ~ entry_matches text e) table) \/
  (exists before entry after,
      table = before ++ entry :: after /\
      first_match table text = fst entry /\
      entry_matches text entry /\
      Forall (fun e => ~ entry_matches text e) before).
Proof.
  induction table as [|[name indicators] table IH]; cbn [first_match].
  - left. split; [reflexivity | constructor].
  - destruct (existsb _ indicators) eqn:He.
    + right. exists [], (name, indicators), table.
      split; [reflexivity|]. split; [reflexivity|].
      split; [now apply (existsb_entry text indicators name) | constructor].
    + assert (Hno : ~ entry_matches text (name, indicators)).
      { intros H. apply (existsb_entry text indicators name) in H. congruence. }
      destruct IH as [[H1 H2]|(before & entry & after & -> & H1 & H2 & H3)].
      * left. split; [assumption | now constructor].
      * right. exists ((name, indicators) :: before), entry, after.
        split; [reflexivity|]. split; [assumption|]. split; [assumption|].
        now constructor.
Qed.

Lemma header_str_lower headers headers' :
  map (fun kv => lower (fst kv)) headers = map (fun kv => lower (fst kv)) headers' ->
  map (fun kv => lower (snd kv)) headers = map (fun kv => lower (snd kv)) headers' ->
  header_str headers = header_str headers'.
Proof.
  intros Hk Hv. unfold header_str. rewrite !lower_concat, !map_map, Hk, Hv.
  reflexivity.
Qed.

(** X17.  [detect_waf] and [detect_cdn] read the names and the values of the
    headers in lower case only: two lists of headers that differ in case
    alone get the same WAF and the same CDN. *)
Theorem detection_ignores_case :
  forall headers headers' : list (string * string),
    map (fun kv => lower (fst kv)) headers = map (fun kv => lower (fst kv)) headers' ->
    map (fun kv => lower (snd kv)) headers = map (fun kv => lower (snd kv)) headers' ->
    utils.detect_waf headers = utils.detect_waf headers' /\
    utils.detect_cdn headers = utils.detect_cdn headers'.
Proof.
  intros headers headers' Hk Hv. unfold utils.detect_waf, utils.detect_cdn.
  now rewrite (header_str_lower _ _ Hk Hv).
Qed.

Lemma detection_ignores_case_witness :
  utils.detect_waf [("CF-RAY", "8a1b")] = utils.detect_waf [("cf-ray", "8A1B")] /\
  utils.detect_cdn [("CF-RAY", "8a1b")] = utils.detect_cdn [("cf-ray", "8A1B")].
Proof.
  apply (detection_ignores_case [("CF-RAY", "8a1b")] [("cf-ray", "8A1B")]);
    reflexivity.
Defined.

(** X18.  [detect_waf] and [detect_cdn] return the name of the first entry of
    their table one of whose indicators occurs in the lower-cased header
    names and values, whatever later entries match as well, and the empty
    string exactly when no entry matches. *)
Theorem detection_picks_the_first_entry :
  forall headers : list (string * string),
    let text := header_str headers in
    ((utils.detect_waf headers = "" /\
      Forall (fun e => ~ entry_matches text e) utils.waf_indicators) \/
     (exists before entry after,
         utils.waf_indicators = before ++ entry :: after /\
         utils.detect_waf headers = fst entry /\ entry_matches text entry /\
         Forall (fun e => ~ entry_matches text e) before)) /\
    ((utils.detect_cdn headers = "" /\
      Forall (fun e => ~ entry_matches text e) utils.cdn_indicators) \/
     (exists before entry after,
         utils.cdn_indicators = before ++ entry :: after /\
         utils.detect_cdn headers = fst entry /\ entry_matches text entry /\
         Forall (fun e => ~ entry_matches text e) before)).
Proof.
  intros headers text. split; apply first_match_spec.
Qed.

(** X19.  Because ["server"] is an indicator of the entry [StackPath],
    [detect_cdn] never returns the empty string for headers that include one
    whose name contains [server] in any case: it names [StackPath] or one of
    the six entries before it. *)
Theorem server_header_names_a_cdn :
  forall (headers : list (string * string)) (name value : string),
    In (name, value) headers ->
    contains "server" (lower name) = true ->
    In (utils.detect_cdn headers)
      ["Cloudflare"; "CloudFront"; "Akamai"; "Fastly"; "Google Cloud CDN";
       "Azure CDN"; "StackPath"].
Proof.
  intros headers name value Hin Hname.
  assert (Htext : contains "server" (header_str headers) = true).
  { unfold header_str. apply contains_app_l. rewrite lower_concat.
    apply (contains_concat _ _ (lower name)); [|assumption].
    apply in_map_iff. exists name. split; [reflexivity|].
    apply in_map_iff. exists (name, value). auto. }
  unfold utils.detect_cdn, utils.cdn_indicators. cbn [first_match existsb].
  change (lower "server") with "server". rewrite Htext. cbn [orb].
  repeat match goal with
    | |- context [if ?b then _ else _] => destruct b
    end; cbn [In]; auto 10.
Qed.

Lemma server_header_names_a_cdn_witness :
  In (utils.detect_cdn [("Server", "nginx")])
    ["Cloudflare"; "CloudFront"; "Akamai"; "Fastly"; "Google Cloud CDN";
     "Azure CDN"; "StackPath"].
Proof.
  apply (server_header_names_a_cdn [("Server", "nginx")] "Server" "nginx");
    [now left | reflexivity].
Defined.

(** X20.  Headers that [detect_cdn] attributes to Cloudflare are attributed
    to Cloudflare by [detect_waf] too. *)
Theorem cloudflare_cdn_is_cloudflare_waf :
  forall headers : list (string * string),
    utils.detect_cdn headers = "Cloudflare" -> utils.detect_waf headers = "Cloudflare".
Proof.
  intros headers. unfold utils.detect_cdn, utils.detect_waf, utils.cdn_indicators, utils.waf_indicators.
  cbn [first_match existsb].
  change (lower "cloudflare") with "cloudflare".
  change (lower "cf-ray") with "cf-ray".
  destruct (contains "cloudflare" (header_str headers)); [reflexivity|].
  destruct (contains "cf-ray" (header_str headers)); [reflexivity|].
  cbn [orb]. intros H. exfalso. revert H.
  repeat match goal with
    | |- context [if ?b then _ else _] => destruct b
    end; discriminate.
Qed.

Lemma cloudflare_cdn_is_cloudflare_waf_witness :
  utils.detect_waf [("CF-RAY", "8a1b")] = "Cloudflare".
Proof.
  apply (cloudflare_cdn_is_cloudflare_waf [("CF-RAY", "8a1b")]). reflexivity.
Defined.

Example server_header_is_stackpath :
  utils.detect_cdn [("Server", "nginx"); ("Content-Type", "text/html")] = "StackPath" /\
  utils.detect_waf [("Server", "nginx"); ("Content-Type", "text/html")] = "" /\
  utils.detect_cdn [] = "" /\ utils.detect_waf [] = "" /\
  utils.detect_waf [("X-CDN", "Incapsula"); ("Set-Cookie", "incap_ses_1=x")] = "Incapsula".
Proof. vm_compute. repeat split. Qed.

(** ** Cleaning a candidate *)

(* theorems *)
Lemma has_char_split_head sep skip s c :
  has_char c s = false -> has_char c (hd "" (split_from sep skip s)) = false.
Proof.
  revert skip. induction s as [|x s IH]; intros skip H; [reflexivity|].
  cbn [has_char] in H. apply orb_false_elim in H. destruct H as [Hx Hs].
  cbn [split_from]. destruct skip as [|k]; [|now apply IH].
  destruct (String.prefix sep (String x s)); [reflexivity|].
  specialize (IH O Hs).
  destruct (split_from sep O s) as [|piece pieces]; cbn [hd has_char] in *;
    rewrite Hx; [reflexivity | exact IH].
Qed.

Lemma has_char_split_last sep s c : forall skip,
  has_char c s = false -> has_char c (List.last (split_from sep skip s) "") = false.
Proof.
  induction s as [|x s IH]; intros skip H; [reflexivity|].
  cbn [has_char] in H. apply orb_false_elim in H. destruct H as [Hx Hs].
  cbn [split_from]. destruct skip as [|k]; [|now apply IH].
  destruct (String.prefix sep (String x s)).
  - specialize (IH (Nat.pred (String.length sep)) Hs).
    destruct (split_from sep (Nat.pred (String.length sep)) s) as [|p ps] eqn:E;
      [reflexivity | exact IH].
  - specialize (IH O Hs).
    destruct (split_from sep O s) as [|piece pieces]; [cbn; now rewrite Hx|].
    destruct pieces as [|p ps]; [|exact IH].
    cbn [List.last has_char] in *. now rewrite Hx.
Qed.

(** The first piece of a split on one character does not hold it. *)
Lemma split_head_free c s :
  has_char c (hd "" (split (String c "") s)) = false.
Proof.
  unfold split. induction s as [|x s IH]; [reflexivity|].
  cbn [split_from String.prefix].
  destruct (ascii_dec c x) as [->|Hne].
  - destruct s; reflexivity.
  - destruct (split_from (String c "") O s) as [|piece pieces]; cbn [hd has_char] in *.
    + rewrite orb_false_r. apply Ascii.eqb_neq. congruence.
    + rewrite IH, orb_false_r. apply Ascii.eqb_neq. congruence.
Qed.

Lemma has_char_append c a b :
  has_char c (String.append a b) = has_char c a || has_char c b.
Proof.
  induction a as [|x a IH]; [reflexivity|].
  change (String.append (String x a) b) with (String x (String.append a b)).
  cbn [has_char]. now rewrite IH, orb_assoc.
Qed.

Lemma has_char_replace old new c s : forall skip,
  has_char c new = false -> has_char c s = false ->
  has_char c (replace_from old new skip s) = false.
Proof.
  induction s as [|x s IH]; intros skip Hn H; [reflexivity|].
  cbn [has_char] in H. apply orb_false_elim in H. destruct H as [Hx Hs].
  cbn [replace_from]. destruct skip as [|k]; [|now apply IH].
  destruct (String.prefix old (String x s)).
  - rewrite has_char_append, Hn. now apply IH.
  - cbn [has_char]. rewrite Hx. now apply IH.
Qed.

Lemma has_char_rstrip p c s :
  has_char c s = false -> has_char c (rstrip_by p s) = false.
Proof.
  induction s as [|x s IH]; intros H; [reflexivity|].
  cbn [has_char] in H. apply orb_false_elim in H. destruct H as [Hx Hs].
  cbn [rstrip_by]. specialize (IH Hs).
  destruct (rstrip_by p s) as [|y r].
  - destruct (p x); cbn [has_char]; [reflexivity | now rewrite Hx].
  - cbn [has_char] in *. now rewrite Hx, IH.
Qed.

Lemma has_char_lstrip c s : has_char c s = false -> has_char c (lstrip s) = false.
Proof.
  induction s as [|x s IH]; intros H; [reflexivity|].
  cbn [lstrip]. destruct (is_space x); [|assumption].
  cbn [has_char] in H. apply orb_false_elim in H. now apply IH.
Qed.

Lemma lower_ascii_not_upper x : is_upper (lower_ascii x) = false.
Proof. destruct x as [[] [] [] [] [] [] [] []]; reflexivity. Qed.

Lemma lower_ascii_slash x : lower_ascii x = "/"%char -> x = "/"%char.
Proof.
  destruct x as [[] [] [] [] [] [] [] []]; vm_compute; intros H;
    first [reflexivity | discriminate H].
Qed.

Lemma lower_ascii_colon x : lower_ascii x = ":"%char -> x = ":"%char.
Proof.
  destruct x as [[] [] [] [] [] [] [] []]; vm_compute; intros H;
    first [reflexivity | discriminate H].
Qed.

Lemma lower_ascii_dot x : lower_ascii x = "."%char -> x = "."%char.
Proof.
  destruct x as [[] [] [] [] [] [] [] []]; vm_compute; intros H;
    first [reflexivity | discriminate H].
Qed.

Lemma has_char_lower c s :
  (forall x, lower_ascii x = c -> x = c) ->
  has_char c s = false -> has_char c (lower s) = false.
Proof.
  intros Hc. induction s as [|x s IH]; intros H; [reflexivity|].
  cbn [has_char] in H. apply orb_false_elim in H. destruct H as [Hx Hs].
  cbn [lower has_char]. rewrite (IH Hs), orb_false_r.
  apply Ascii.eqb_neq. intros Heq. apply Hc in Heq.
  apply Ascii.eqb_neq in Hx. contradiction.
Qed.

Lemma lower_no_upper s : all_chars (fun c => negb (is_upper c)) (lower s) = true.
Proof.
  induction s as [|x s IH]; [reflexivity|].
  cbn [lower all_chars]. now rewrite lower_ascii_not_upper, IH.
Qed.

Lemma last_char_rstrip p s c :
  last_char (rstrip_by p s) = Some c -> p c = false.
Proof.
  induction s as [|x s IH]; [discriminate|].
  cbn [rstrip_by]. destruct (rstrip_by p s) as [|y r] eqn:E.
  - destruct (p x) eqn:Hp; [discriminate|]. cbn. intros [= <-]. exact Hp.
  - exact IH.
Qed.

Lemma last_char_lower s : last_char (lower s) = option_map lower_ascii (last_char s).
Proof.
  induction s as [|x s IH]; [reflexivity|].
  cbn [lower]. destruct s as [|y s]; [reflexivity|]. exact IH.
Qed.

(** X21.  Whatever the text, [clean_domain] returns a name with no [/] and
    no [:], without an upper-case ASCII letter, and that does not end with a
    dot. *)
Theorem clean_domain_leaves_a_bare_name :
  forall domain : string,
    let cleaned := utils.clean_domain domain in
    has_char "/" cleaned = false /\
    has_char ":" cleaned = false /\
    all_chars (fun c => negb (is_upper c)) cleaned = true /\
    last_char cleaned <> Some "."%char.
Proof.
  intros domain cleaned. subst cleaned. unfold utils.clean_domain.
  set (d1 := strip domain).
  set (d2 := if contains "://" d1 then List.last (split "://" d1) "" else d1).
  set (d3 := hd "" (split "/" d2)).
  set (d4 := hd "" (split ":" d3)).
  assert (H3 : has_char "/" d3 = false) by apply split_head_free.
  assert (H4 : has_char "/" d4 = false /\ has_char ":" d4 = false).
  { split; [now apply has_char_split_head | apply split_head_free]. }
  destruct H4 as [H4 H4'].
  split; [|split; [|split]].
  - apply has_char_lower; [apply lower_ascii_slash|].
    apply has_char_rstrip. now apply has_char_replace.
  - apply has_char_lower; [apply lower_ascii_colon|].
    apply has_char_rstrip. now apply has_char_replace.
  - apply lower_no_upper.
  - rewrite last_char_lower.
    destruct (last_char (rstrip_by _ _)) as [c|] eqn:E; [|discriminate].
    apply last_char_rstrip in E. cbn. intros [= Heq].
    apply lower_ascii_dot in Heq. subst c. discriminate.
Qed.

Lemma host_char_facts c :
  host_char c = true ->
  is_space c = false /\ lower_ascii c = c /\
  c <> ":"%char /\ c <> "/"%char /\ c <> "*"%char.
Proof.
  destruct c as [[] [] [] [] [] [] [] []]; vm_compute; intros H;
    first [discriminate H | repeat split; discriminate].
Qed.

Lemma host_chars_exclude c s :
  host_char c = false -> all_chars host_char s = true -> has_char c s = false.
Proof.
  intros Hc. induction s as [|x s IH]; intros H; [reflexivity|].
  cbn [all_chars] in H. apply andb_prop in H. destruct H as [Hx Hs].
  cbn [has_char]. rewrite (IH Hs), orb_false_r.
  apply Ascii.eqb_neq. intros ->. congruence.
Qed.

Lemma rstrip_nothing p s :
  all_chars (fun c => negb (p c)) s = true -> rstrip_by p s = s.
Proof.
  induction s as [|x s IH]; intros H; [reflexivity|].
  cbn [all_chars] in H. apply andb_prop in H. destruct H as [Hx Hs].
  cbn [rstrip_by]. rewrite (IH Hs). destruct s; [|reflexivity].
  apply negb_true_iff in Hx. now rewrite Hx.
Qed.

Lemma rstrip_last p s :
  (forall c, last_char s = Some c -> p c = false) -> rstrip_by p s = s.
Proof.
  induction s as [|x s IH]; intros H; [reflexivity|].
  cbn [rstrip_by]. destruct s as [|y s].
  - cbn. now rewrite (H x eq_refl).
  - rewrite IH; [reflexivity|]. intros c Hc. apply H. exact Hc.
Qed.

Lemma contains_needs_head c rest s :
  has_char c s = false -> contains (String c rest) s = false.
Proof.
  induction s as [|x s IH]; intros H; [reflexivity|].
  cbn [has_char] in H. apply orb_false_elim in H. destruct H as [Hx Hs].
  cbn [contains String.prefix]. rewrite (IH Hs), orb_false_r.
  destruct (ascii_dec c x) as [->|]; [|reflexivity].
  rewrite Ascii.eqb_refl in Hx. discriminate.
Qed.

Lemma split_nothing c rest s :
  has_char c s = false -> split (String c rest) s = [s].
Proof.
  unfold split. induction s as [|x s IH]; intros H; [reflexivity|].
  cbn [has_char] in H. apply orb_false_elim in H. destruct H as [Hx Hs].
  cbn [split_from String.prefix]. rewrite (IH Hs).
  destruct (ascii_dec c x) as [->|]; [|reflexivity].
  rewrite Ascii.eqb_refl in Hx. discriminate.
Qed.

Lemma replace_nothing c rest new s :
  has_char c s = false -> replace (String c rest) new s = s.
Proof.
  unfold replace. induction s as [|x s IH]; intros H; [reflexivity|].
  cbn [has_char] in H. apply orb_false_elim in H. destruct H as [Hx Hs].
  cbn [replace_from String.prefix]. rewrite (IH Hs).
  destruct (ascii_dec c x) as [->|]; [|reflexivity].
  rewrite Ascii.eqb_refl in Hx. discriminate.
Qed.

Lemma lower_nothing s : all_chars host_char s = true -> lower s = s.
Proof.
  induction s as [|x s IH]; intros H; [reflexivity|].
  cbn [all_chars] in H. apply andb_prop in H. destruct H as [Hx Hs].
  cbn [lower]. rewrite (IH Hs).
  now destruct (host_char_facts x Hx) as (_ & -> & _).
Qed.

Lemma strip_nothing s : all_chars host_char s = true -> strip s = s.
Proof.
  intros H. unfold strip.
  assert (Hsp : all_chars (fun c => negb (is_space c)) s = true).
  { induction s as [|x s IH]; [reflexivity|].
    cbn [all_chars] in *. apply andb_prop in H. destruct H as [Hx Hs].
    destruct (host_char_facts x Hx) as (-> & _). cbn. now apply IH. }
  rewrite (rstrip_nothing _ _ Hsp).
  destruct s as [|x s]; [reflexivity|].
  cbn [all_chars] in H. apply andb_prop in H. destruct H as [Hx _].
  cbn [lstrip]. now destruct (host_char_facts x Hx) as (-> & _).
Qed.

(** X22.  [clean_domain] returns unchanged a name made of lower-case
    letters, digits, hyphens and dots that does not end with a dot; so it
    cleans such a name once and for all. *)
Theorem clean_domain_keeps_a_clean_name :
  forall domain : string,
    all_chars host_char domain = true ->
    last_char domain <> Some "."%char ->
    utils.clean_domain domain = domain.
Proof.
  intros domain Hc Hl. unfold utils.clean_domain.
  rewrite (strip_nothing _ Hc).
  rewrite (contains_needs_head ":" "//" domain)
    by (apply host_chars_exclude; [reflexivity | assumption]).
  rewrite (split_nothing "/" "" domain)
    by (apply host_chars_exclude; [reflexivity | assumption]).
  cbn [hd].
  rewrite (split_nothing ":" "" domain)
    by (apply host_chars_exclude; [reflexivity | assumption]).
  cbn [hd].
  rewrite (replace_nothing "*" "." "" domain)
    by (apply host_chars_exclude; [reflexivity | assumption]).
  rewrite rstrip_last.
  - now apply lower_nothing.
  - intros c Hlast. apply Ascii.eqb_neq. intros <-. contradiction.
Qed.

Lemma clean_domain_keeps_a_clean_name_witness :
  utils.clean_domain "api-2.example.com" = "api-2.example.com".
Proof.
  apply (clean_domain_keeps_a_clean_name "api-2.example.com");
    [reflexivity | discriminate].
Defined.

Example clean_domain_examples :
  utils.clean_domain "  HTTPS://*.Example.COM:8443/path?x=1  " = "example.com" /\
  utils.clean_domain "a://b://c.d./" = "c.d" /\
  utils.clean_domain "" = "" /\
  utils.clean_domain "**.." = "*" /\
  utils.clean_domain " a /b" = "a " /\
  utils.clean_domain (utils.clean_domain " a /b") = "a".
Proof. vm_compute. repeat split. Qed.

(** ** The success rate *)

Lemma quotient_in_unit (f c : Z) :
  0 <= f <= c -> 0 < c ->
  (0 <= inject_Z f / inject_Z c <= 1)%Q.
Proof.
  intros [Hf Hc] Hpos.
  assert (Hq : (0 < inject_Z c)%Q) by (unfold Qlt; cbn; lia).
  split.
  - apply Qle_shift_div_l; [exact Hq|]. rewrite Qmult_0_l.
    unfold Qle; cbn; lia.
  - apply Qle_shift_div_r; [exact Hq|]. rewrite Qmult_1_l.
    unfold Qle; cbn; lia.
Qed.

(** X23.  After [run_checks] on a checker just built, with one completed
    future per host, [success_rate] is a percentage between 0 and 100; it is
    0 without dividing when there is no host, and 100 when every host gave a
    result.  A second call of [run_checks] on the same hosts, all of them
    live again, leaves a rate of 200: [total_found] accumulates and
    [total_checked] does not. *)
Theorem success_rate_is_a_percentage :
  forall (P : Platform) (w : World P) (hosts : list string)
         (completed : list (option ScanResult)) (now now' : Q),
    length completed = length hosts ->
    let once := run_checks (fst (init P w)) hosts completed now in
    let twice := run_checks once hosts completed now' in
    (0 <= success_rate (stats once) <= 100)%Q /\
    (hosts = [] -> success_rate (stats once) = 0%Q) /\
    (hosts <> [] -> Forall (fun r => r <> None) completed ->
     (success_rate (stats once) == 100)%Q /\
     (success_rate (stats twice) == 200)%Q).
Proof.
  intros P w hosts completed now now' Hlen once twice. subst once twice.
  destruct (init_stats P w) as (_ & Hf & _).
  destruct (run_checks_stats (fst (init P w)) hosts completed now) as (A1 & A2 & _).
  destruct (run_checks_stats (run_checks (fst (init P w)) hosts completed now)
              hosts completed now') as (B1 & B2 & _).
  pose proof (found_length completed) as Hle.
  unfold success_rate. rewrite B1, B2, A1, A2, Hf.
  split; [|split].
  - destruct (Z.eqb_spec (Z.of_nat (length hosts)) 0) as [|Hne]; [lra|].
    pose proof (quotient_in_unit (0 + Z.of_nat (length (found completed)))
                  (Z.of_nat (length hosts))) as Hq.
    destruct Hq as [Hq1 Hq2]; [lia | lia |]. lra.
  - intros ->. reflexivity.
  - intros Hne Hall.
    assert (Hall' : length (found completed) = length completed).
    { clear -Hall. unfold found.
      induction Hall as [|[r|] completed Hr _ IH]; cbn; [reflexivity | lia | congruence]. }
    rewrite Hall', Hlen.
    assert (Hpos : 0 < Z.of_nat (length hosts)) by (destruct hosts; [congruence | cbn; lia]).
    destruct (Z.eqb_spec (Z.of_nat (length hosts)) 0) as [|_]; [lia|].
    assert (Hq : (0 < inject_Z (Z.of_nat (length hosts)))%Q)
      by (unfold Qlt; cbn; lia).
    replace (0 + Z.of_nat (length hosts) + Z.of_nat (length hosts))
      with (2 * Z.of_nat (length hosts)) by lia.
    replace (0 + Z.of_nat (length hosts)) with (Z.of_nat (length hosts)) by lia.
    rewrite inject_Z_mult. split; field; lra.
Qed.

Lemma success_rate_is_a_percentage_witness :
  (0 <= success_rate
          (stats (run_checks (fst (fresh refusing O)) ["a.test"; "b.test"]
                    [Some (live "a.test" 200 "http://a.test"); None] 0%Q))
   <= 100)%Q.
Proof.
  apply (success_rate_is_a_percentage refusing O ["a.test"; "b.test"]
           [Some (live "a.test" 200 "http://a.test"); None] 0%Q 0%Q).
  reflexivity.
Defined.

Example success_rate_examples :
  let one := run_checks (fst (fresh refusing O)) ["a.test"; "b.test"]
               [Some (live "a.test" 200 "http://a.test"); None] 0%Q in
  (success_rate (stats one) == 50)%Q /\
  (success_rate (stats (run_checks one ["a.test"; "b.test"]
                          [Some (live "a.test" 200 "http://a.test"); None] 0%Q))
   == 100)%Q.
Proof. vm_compute. split; reflexivity. Qed.
